(** * gfwlist2x: the rule parser of [gfwlist2x.py]

    A shallow embedding of the class [GfwList] of [src/gfwlist2x.py]: the
    five compiled patterns, [_parse_line], [parse], [add_extra_domains], the
    two formatters and [run], together with the part of Python's [re] module
    they rely on (a backtracking matcher, [search] and [sub]).

    A Python [str] is a sequence of Unicode code points; it is modelled as a
    list of code points ([list N]).  The set [self.domains] is a [gset]. *)

From Stdlib Require Import NArith Ascii String List Lia Bool.
From stdpp Require Import base option list gmap sets.

Local Open Scope N_scope.
Local Open Scope nat_scope.
Local Open Scope list_scope.

(** ** Strings *)

Abbreviation str := (list N).

(** The code points of a string literal. *)
Definition lit (s : string) : str :=
  map N_of_ascii (list_ascii_of_string s).

(** [s.startswith(p)] *)
Fixpoint startswith (p s : str) : bool :=
  match p, s with
  | [], _ => true
  | a :: p', b :: s' => N.eqb a b && startswith p' s'
  | _ :: _, [] => false
  end.

(** The line boundaries of [str.splitlines], apart from the two-character
    boundary CR LF, which [splitlines] below treats on its own. *)
Definition is_linebreak (c : N) : bool :=
  existsb (N.eqb c)
    [10; 13; 11; 12; 28; 29; 30; 133; 8232; 8233]%N.

(** [data.splitlines()]: [cur] holds, reversed, the characters of the line
    being read.  A trailing boundary does not open a further, empty line. *)
Fixpoint splitlines_aux (cur : str) (s : str) : list str :=
  match s with
  | [] => match cur with [] => [] | _ => [rev cur] end
  | c :: s' =>
      if N.eqb c 13 then
        match s' with
        | c' :: s'' =>
            if N.eqb c' 10 then rev cur :: splitlines_aux [] s''
            else rev cur :: splitlines_aux [] s'
        | [] => rev cur :: splitlines_aux [] s'
        end
      else if is_linebreak c then rev cur :: splitlines_aux [] s'
      else splitlines_aux (c :: cur) s'
  end.

Definition splitlines (s : str) : list str := splitlines_aux [] s.

(** ** Regular expressions, as Python's [re] compiles them

    Only the constructs that occur in the five patterns of [GfwList]. *)

Inductive regex : Type :=
| Empty                                      (* the empty pattern *)
| Chr (c : N)                                (* a literal character *)
| Cls (p : N -> bool)                        (* a class [[...]], or [.] *)
| Bol                                        (* [^] (no MULTILINE flag) *)
| Eol                                        (* [$] (no MULTILINE flag) *)
| Cat (r1 r2 : regex)                        (* r1 r2 *)
| Alt (r1 r2 : regex)                        (* r1|r2 *)
| Rep (lo : nat) (hi : option nat) (r : regex)  (* greedy r{lo,hi} *)
| Grp (n : nat) (r : regex).                 (* the n-th group (r) *)

Declare Scope re_scope.
Delimit Scope re_scope with re.
Bind Scope re_scope with regex.
Notation "a ++ b" := (Cat a b) : re_scope.
Notation "a || b" := (Alt a b) : re_scope.

Definition Star (r : regex) : regex := Rep 0 None r.          (* r*  *)
Definition Plus (r : regex) : regex := Rep 1 None r.          (* r+  *)
Definition Opt (r : regex) : regex := Rep 0 (Some 1) r.       (* r?  *)

(** A literal string. *)
Fixpoint Lits_ (s : str) : regex :=
  match s with
  | [] => Empty
  | [c] => Chr c
  | c :: s' => Cat (Chr c) (Lits_ s')
  end.
Definition Lits (s : string) : regex := Lits_ (lit s).

(** Character classes. *)
Definition in_range (lo hi c : N) : bool := N.leb lo c && N.leb c hi.
Definition digit (c : N) : bool := in_range 48 57 c.            (* [0-9] *)
Definition alnum (c : N) : bool :=                              (* [a-zA-Z0-9] *)
  in_range 97 122 c || in_range 65 90 c || in_range 48 57 c.
Definition hyphen_alnum (c : N) : bool :=                       (* [-a-zA-Z0-9] *)
  N.eqb c 45 || alnum c.
Definition any (c : N) : bool := negb (N.eqb c 10).             (* .  *)

(** *** The matcher

    Captures: group number to captured text. *)
Abbreviation caps := (gmap nat str).

(** A continuation gets the position reached, the text that remains there
    and the captures so far. *)
Definition cont (A : Type) : Type := nat -> str -> caps -> option A.

Definition orelse {A} (x y : option A) : option A :=
  match x with Some _ => x | None => y end.

Definition can_repeat (hi : option nat) : bool :=
  match hi with Some 0 => false | _ => true end.

(** Greedy repetition [r{lo,hi}]: one more iteration of the body first, the
    rest of the pattern when that fails.  An iteration that consumes nothing
    is not repeated.  The fuel bounds the number of iterations; every
    iteration consumes a character, so that [S (length s)] is enough. *)
Fixpoint rep_loop {A} (body : nat -> str -> caps -> cont A -> option A)
    (k : cont A) (fuel lo : nat) (hi : option nat)
    (i : nat) (s : str) (g : caps) : option A :=
  match fuel with
  | 0 => None
  | S fuel' =>
      orelse
        (if can_repeat hi then
           body i s g (fun i' s' g' =>
             if length s' <? length s
             then rep_loop body k fuel' (pred lo) (pred <$> hi) i' s' g'
             else None)
         else None)
        (if lo =? 0 then k i s g else None)
  end.

(** [rmatch r i s g k]: match [r] at position [i], where [s] is the text from
    [i] on; alternatives are tried in the order of Python's backtracking
    matcher, and the first one on which the continuation succeeds wins. *)
Fixpoint rmatch {A} (r : regex) (i : nat) (s : str) (g : caps) (k : cont A)
    : option A :=
  match r with
  | Empty => k i s g
  | Chr c =>
      match s with
      | x :: s' => if N.eqb x c then k (S i) s' g else None
      | [] => None
      end
  | Cls p =>
      match s with
      | x :: s' => if p x then k (S i) s' g else None
      | [] => None
      end
  | Bol => if i =? 0 then k i s g else None
  | Eol =>
      match s with
      | [] => k i s g
      | [c] => if N.eqb c 10 then k i s g else None
      | _ => None
      end
  | Cat r1 r2 => rmatch r1 i s g (fun i' s' g' => rmatch r2 i' s' g' k)
  | Alt r1 r2 => orelse (rmatch r1 i s g k) (rmatch r2 i s g k)
  | Rep lo hi r' => rep_loop (rmatch r') k (S (length s)) lo hi i s g
  | Grp n r' =>
      rmatch r' i s g (fun i' s' g' => k i' s' (<[n := take (i' - i) s]> g'))
  end.

(** A match object, or [None]: its truth value in a condition. *)
Definition is_match {A} (o : option A) : bool :=
  match o with Some _ => true | None => false end.

(** A match object: its span and its groups. *)
Record match_obj : Type := MatchObj {
  mstart : nat;
  mend : nat;
  mcaps : caps
}.

(** One attempt at position [i].  [must_advance] is set by [sub] after an
    empty match: the next match may not be empty at the same place. *)
Definition match_at (r : regex) (must_advance : bool) (i : nat) (s : str)
    : option match_obj :=
  rmatch r i s ∅ (fun i' _ g' =>
    if must_advance && (i' =? i) then None else Some (MatchObj i i' g')).

(** [pattern.search]: the first position, from [i] on, with a match. *)
Fixpoint search_from (r : regex) (must_advance : bool) (i : nat) (s : str)
    : option match_obj :=
  match match_at r must_advance i s with
  | Some m => Some m
  | None =>
      match s with
      | [] => None
      | _ :: s' => search_from r false (S i) s'
      end
  end.

Definition search (r : regex) (s : str) : option match_obj :=
  search_from r false 0 s.

(** [m.groups()] for a pattern with [n] groups. *)
Definition groups (n : nat) (m : match_obj) : list (option str) :=
  (fun j => mcaps m !! j) <$> seq 1 n.

(** [pattern.sub(repl, s)] for a replacement without group references: the
    text between the matches is kept, every match is replaced.  A position
    starts two matches at most, an empty one and then one that advances, so
    that the fuel of [sub] is never used up. *)
Fixpoint sub_loop (fuel : nat) (r : regex) (repl : str) (must_advance : bool)
    (i : nat) (s : str) : str :=
  match fuel with
  | 0 => s
  | S fuel' =>
      match search_from r must_advance i s with
      | None => s
      | Some m =>
          take (mstart m - i) s ++ repl ++
          sub_loop fuel' r repl (mend m =? mstart m) (mend m)
                   (drop (mend m - i) s)
      end
  end.

Definition sub (r : regex) (repl : str) (s : str) : str :=
  sub_loop (3 + 2 * length s) r repl false 0 s.

(** ** The patterns of [GfwList]

    Each pattern is quoted in the verbose style, its tokens set apart. *)

(** [ignore_pattern]:
      ^ \!  |  \[  |  ^ @@  |
      ( http s? :// ){0,1} [0-9]+ \. [0-9]+ \. [0-9]+ \. [0-9]+ *)
Definition ignore_pattern : regex :=
  ((Bol ++ Lits "!")
   || Lits "["
   || (Bol ++ Lits "@@")
   || (Rep 0 (Some 1) (Grp 1 (Lits "http" ++ Opt (Lits "s") ++ Lits "://"))
       ++ Plus (Cls digit) ++ Lits "." ++ Plus (Cls digit) ++ Lits "."
       ++ Plus (Cls digit) ++ Lits "." ++ Plus (Cls digit)))%re.

(** [head_filter_pattern]:
      ^ ( \| \|? )? ( http s? :// )? *)
Definition head_filter_pattern : regex :=
  (Bol ++ Opt (Grp 1 (Lits "|" ++ Opt (Lits "|")))
       ++ Opt (Grp 2 (Lits "http" ++ Opt (Lits "s") ++ Lits "://")))%re.

(** [tail_filter_pattern]:
      / .* $  |  %2F .* $ *)
Definition tail_filter_pattern : regex :=
  ((Lits "/" ++ Star (Cls any) ++ Eol)
   || (Lits "%2F" ++ Star (Cls any) ++ Eol))%re.

(** The domain shape that the last two patterns share, its inner group
    numbered [n]:
      [a-zA-Z0-9] [-a-zA-Z0-9]* ( \. [a-zA-Z0-9] [-a-zA-Z0-9]* )+ *)
Definition domain_shape (n : nat) : regex :=
  (Cls alnum ++ Star (Cls hyphen_alnum)
   ++ Plus (Grp n (Lits "." ++ Cls alnum ++ Star (Cls hyphen_alnum))))%re.

(** [domain_pattern]:
      ( [a-zA-Z0-9] [-a-zA-Z0-9]* ( \. [a-zA-Z0-9] [-a-zA-Z0-9]* )+ ) *)
Definition domain_pattern : regex := Grp 1 (domain_shape 2).

(** [wildcard_pattern]:
      ^
      ( ( [a-zA-Z0-9]* \* [-a-zA-Z0-9]* )? ( \. ) )?
      ( [a-zA-Z0-9] [-a-zA-Z0-9]* ( \. [a-zA-Z0-9] [-a-zA-Z0-9]* )+ )
      ( \* [a-zA-Z0-9]* )?
      $ *)
Definition wildcard_pattern : regex :=
  (Bol
   ++ Opt (Grp 1 (Opt (Grp 2 (Star (Cls alnum) ++ Lits "*"
                              ++ Star (Cls hyphen_alnum)))
                  ++ Grp 3 (Lits ".")))
   ++ Grp 4 (domain_shape 5)
   ++ Opt (Grp 6 (Lits "*" ++ Star (Cls alnum)))
   ++ Eol)%re.


(** ** The program state and its effects *)

Inductive exn : Type :=
| AttributeError       (* an attribute of [None] *)
| TypeError            (* [base64.b64decode(None)] *)
| ValueError           (* a base64 or UTF-8 decoding error *)
| FileNotFoundError.   (* [open] of a file that does not exist *)

Inductive result (A : Type) : Type :=
| Ret (a : A)
| Raise (e : exn).
Arguments Ret {A} a.
Arguments Raise {A} e.

(** The object [self] ([domains], [dns_server]) and the world around it:
    what was printed, the files, and what [urlopen] answers for a URL
    ([None]: it raises). *)
Record state : Type := State {
  domains : gset str;
  dns_server : str;
  stdout : list str;
  files : gmap str str;
  urlopen : str -> option str
}.

Definition M (A : Type) : Type := state -> result A * state.

Definition ret {A} (a : A) : M A := fun st => (Ret a, st).
Definition raise {A} (e : exn) : M A := fun st => (Raise e, st).
Definition bind {A B} (f : A -> M B) (m : M A) : M B :=
  fun st =>
    match m st with
    | (Ret a, st') => f a st'
    | (Raise e, st') => (Raise e, st')
    end.

(** stdpp's notations [x ← m; f] and [m;; f] for sequencing. *)
#[export] Instance M_ret : MRet M := @ret.
#[export] Instance M_bind : MBind M := @bind.

Definition set_domains (d : gset str) (st : state) : state :=
  State d (dns_server st) (stdout st) (files st) (urlopen st).
Definition set_stdout (o : list str) (st : state) : state :=
  State (domains st) (dns_server st) o (files st) (urlopen st).
Definition set_files (f : gmap str str) (st : state) : state :=
  State (domains st) (dns_server st) (stdout st) f (urlopen st).

(** Reading a field of the state. *)
Definition gets {A} (f : state -> A) : M A := fun st => (Ret (f st), st).

(** [print(msg)] *)
Definition print (msg : str) : M unit :=
  fun st => (Ret tt, set_stdout (stdout st ++ [msg]) st).

(** [self.domains.add(d)] *)
Definition domains_add (d : str) : M unit :=
  fun st => (Ret tt, set_domains ({[d]} ∪ domains st) st).

(** [self.domains.update(l)] *)
Definition domains_update (l : list str) : M unit :=
  fun st => (Ret tt, set_domains (domains st ∪ list_to_set l) st).

Definition when (b : bool) (m : M unit) : M unit := if b then m else mret tt.

(** [for x in l: body(x)] *)
Fixpoint for_each {A} (l : list A) (body : A -> M unit) : M unit :=
  match l with
  | [] => mret tt
  | x :: l' => body x;; for_each l' body
  end.

(** ** [GfwList._parse_line] *)

Definition manual_msg (origin_line : str) : str :=
  lit "please add domain manually for ignored regex rule: " ++ origin_line.

Definition regex_rule_msg (line domain : str) : str :=
  lit "regex rule " ++ line ++ lit " -> " ++ domain.

Definition _parse_line (line : str) : M unit :=
  let is_regex_rule := startswith (lit "/") line in
  let origin_line := line in
  if is_match (search ignore_pattern line) then
    when is_regex_rule (print (manual_msg origin_line))
  else
    let line := sub head_filter_pattern [] line in
    let line := sub tail_filter_pattern [] line in
    if negb (is_match (search domain_pattern line)) then
      when is_regex_rule (print (manual_msg origin_line))
    else
      match search wildcard_pattern line with
      | None => raise AttributeError
      | Some m =>
          match groups 6 m !! 3 with
          | Some (Some domain) =>
              when is_regex_rule (print (regex_rule_msg line domain));;
              domains_add domain
          | _ => raise TypeError
          end
      end.

(** ** [GfwList.parse]

    [Some false] is Python's [False]; [None] is Python's [None], which
    [parse] returns when it falls off its end. *)
Definition parse (data : str) : M (option bool) :=
  let lines := splitlines data in
  if length lines =? 0 then
    print (lit "gfwlist is empty");; mret (Some false)
  else if negb (startswith (lit "[AutoProxy") (hd [] lines)) then
    print (lit "gfwlist is not in AutoProxy format");; mret (Some false)
  else
    for_each lines _parse_line;; mret None.

(** ** [GfwList.add_extra_domains] *)

Definition google_domains : list str := lit <$>
  ["google.com"; "google.ad"; "google.ae"; "google.com.af"; "google.com.ag";
   "google.com.ai"; "google.al"; "google.am"; "google.co.ao";
   "google.com.ar"; "google.as"; "google.at"; "google.com.au"; "google.az";
   "google.ba"; "google.com.bd"; "google.be"; "google.bf"; "google.bg";
   "google.com.bh"; "google.bi"; "google.bj"; "google.com.bn";
   "google.com.bo"; "google.com.br"; "google.bs"; "google.bt";
   "google.co.bw"; "google.by"; "google.com.bz"; "google.ca"; "google.cd";
   "google.cf"; "google.cg"; "google.ch"; "google.ci"; "google.co.ck";
   "google.cl"; "google.cm"; "google.cn"; "google.com.co"; "google.co.cr";
   "google.com.cu"; "google.cv"; "google.com.cy"; "google.cz"; "google.de";
   "google.dj"; "google.dk"; "google.dm"; "google.com.do"; "google.dz";
   "google.com.ec"; "google.ee"; "google.com.eg"; "google.es";
   "google.com.et"; "google.fi"; "google.com.fj"; "google.fm"; "google.fr";
   "google.ga"; "google.ge"; "google.gg"; "google.com.gh"; "google.com.gi";
   "google.gl"; "google.gm"; "google.gp"; "google.gr"; "google.com.gt";
   "google.gy"; "google.com.hk"; "google.hn"; "google.hr"; "google.ht";
   "google.hu"; "google.co.id"; "google.ie"; "google.co.il"; "google.im";
   "google.co.in"; "google.iq"; "google.is"; "google.it"; "google.je";
   "google.com.jm"; "google.jo"; "google.co.jp"; "google.co.ke";
   "google.com.kh"; "google.ki"; "google.kg"; "google.co.kr";
   "google.com.kw"; "google.kz"; "google.la"; "google.com.lb"; "google.li";
   "google.lk"; "google.co.ls"; "google.lt"; "google.lu"; "google.lv";
   "google.com.ly"; "google.co.ma"; "google.md"; "google.me"; "google.mg";
   "google.mk"; "google.ml"; "google.com.mm"; "google.mn"; "google.ms";
   "google.com.mt"; "google.mu"; "google.mv"; "google.mw"; "google.com.mx";
   "google.com.my"; "google.co.mz"; "google.com.na"; "google.com.nf";
   "google.com.ng"; "google.com.ni"; "google.ne"; "google.nl"; "google.no";
   "google.com.np"; "google.nr"; "google.nu"; "google.co.nz";
   "google.com.om"; "google.com.pa"; "google.com.pe"; "google.com.pg";
   "google.com.ph"; "google.com.pk"; "google.pl"; "google.pn";
   "google.com.pr"; "google.ps"; "google.pt"; "google.com.py";
   "google.com.qa"; "google.ro"; "google.ru"; "google.rw"; "google.com.sa";
   "google.com.sb"; "google.sc"; "google.se"; "google.com.sg"; "google.sh";
   "google.si"; "google.sk"; "google.com.sl"; "google.sn"; "google.so";
   "google.sm"; "google.sr"; "google.st"; "google.com.sv"; "google.td";
   "google.tg"; "google.co.th"; "google.com.tj"; "google.tk"; "google.tl";
   "google.tm"; "google.tn"; "google.to"; "google.com.tr"; "google.tt";
   "google.com.tw"; "google.co.tz"; "google.com.ua"; "google.co.ug";
   "google.co.uk"; "google.com.uy"; "google.co.uz"; "google.com.vc";
   "google.co.ve"; "google.vg"; "google.co.vi"; "google.com.vn"; "google.vu";
   "google.ws"; "google.rs"; "google.co.za"; "google.co.zm"; "google.co.zw";
   "google.cat"]%string.

Definition blogspot_domains : list str := lit <$>
  ["blogspot.ca"; "blogspot.co.uk"; "blogspot.com"; "blogspot.com.ar";
   "blogspot.com.au"; "blogspot.com.br"; "blogspot.com.by";
   "blogspot.com.co"; "blogspot.com.cy"; "blogspot.com.ee";
   "blogspot.com.eg"; "blogspot.com.es"; "blogspot.com.mt";
   "blogspot.com.ng"; "blogspot.com.tr"; "blogspot.com.uy"; "blogspot.de";
   "blogspot.gr"; "blogspot.in"; "blogspot.mx"; "blogspot.ch"; "blogspot.fr";
   "blogspot.ie"; "blogspot.it"; "blogspot.pt"; "blogspot.ro"; "blogspot.sg";
   "blogspot.be"; "blogspot.no"; "blogspot.se"; "blogspot.jp"; "blogspot.in";
   "blogspot.ae"; "blogspot.al"; "blogspot.am"; "blogspot.ba"; "blogspot.bg";
   "blogspot.ch"; "blogspot.cl"; "blogspot.cz"; "blogspot.dk"; "blogspot.fi";
   "blogspot.gr"; "blogspot.hk"; "blogspot.hr"; "blogspot.hu"; "blogspot.ie";
   "blogspot.is"; "blogspot.kr"; "blogspot.li"; "blogspot.lt"; "blogspot.lu";
   "blogspot.md"; "blogspot.mk"; "blogspot.my"; "blogspot.nl"; "blogspot.no";
   "blogspot.pe"; "blogspot.qa"; "blogspot.ro"; "blogspot.ru"; "blogspot.se";
   "blogspot.sg"; "blogspot.si"; "blogspot.sk"; "blogspot.sn"; "blogspot.tw";
   "blogspot.ug"; "blogspot.cat"]%string.

Definition add_extra_domains : M unit :=
  print (lit "adding google domains");;
  domains_update google_domains;;
  print (lit "add blogspot domains");;
  domains_update blogspot_domains;;
  print (lit "add twimg.edgesuite.net");;
  domains_add (lit "twimg.edgesuite.net").

(** ** The formatters *)

Definition AliYun_DNS_SERVER : list str := lit <$>
  ["223.5.5.5"; "223.6.6.6"; "2400:3200::1"; "2400:3200:baba::1"]%string.
Definition BASE_DNS_SERVER : list str := AliYun_DNS_SERVER.
Definition DEFAULT_SECURE_DNS_SERVER : str := lit "8.8.8.8".

Definition newline : str := [10%N].

(** [open(path, 'w')] with everything written to it, then closed. *)
Definition write_file (path content : str) : M unit :=
  fun st => (Ret tt, set_files (<[path := content]> (files st)) st).

(** Reading in text mode turns CR LF and CR into LF. *)
Fixpoint universal_newlines (s : str) : str :=
  match s with
  | [] => []
  | c :: s' =>
      if N.eqb c 13 then
        match s' with
        | c' :: s'' =>
            if N.eqb c' 10 then 10%N :: universal_newlines s''
            else 10%N :: universal_newlines s'
        | [] => [10%N]
        end
      else c :: universal_newlines s'
  end.

(** [open(path, 'r').read()] *)
Definition read_file (path : str) : M str :=
  fs ← gets files;
  match fs !! path with
  | Some content => mret (universal_newlines content)
  | None => raise FileNotFoundError
  end.

(** The set is iterated in the order of [elements]: some order, each member
    once. *)
Definition format_raw (output : str) : M unit :=
  ds ← gets domains;
  write_file output (concat ((fun domain => domain ++ newline) <$> elements ds)).

(** [extra.txt] is looked up once [output] has been opened, hence emptied.
    Paths are compared as they are written. *)
Definition format_adguardhome (output : str) : M unit :=
  ds ← gets domains;
  dns ← gets dns_server;
  fs ← gets files;
  let servers :=
    concat ((fun server => server ++ newline) <$> BASE_DNS_SERVER) in
  let overrides :=
    concat ((fun domain => lit "[/" ++ domain ++ lit "/]" ++ dns ++ newline)
              <$> elements ds) in
  let extra :=
    match <[output := []]> fs !! lit "extra.txt" with
    | Some ex => universal_newlines ex
    | None => []
    end in
  write_file output (servers ++ overrides ++ extra).

(** ** Fetching the list *)

Definition URLs : list str := lit <$>
  ["https://pagure.io/gfwlist/raw/master/f/gfwlist.txt";
   "http://repo.or.cz/gfwlist.git/blob_plain/HEAD:/gfwlist.txt";
   "https://bitbucket.org/gfwlist/gfwlist/raw/HEAD/gfwlist.txt";
   "https://gitlab.com/gfwlist/gfwlist/raw/master/gfwlist.txt";
   "https://git.tuxfamily.org/gfwlist/gfwlist.git/plain/gfwlist.txt";
   "https://raw.githubusercontent.com/gfwlist/gfwlist/master/gfwlist.txt"
  ]%string.

(** [_fetch_url]: the bytes read, or [None] when [urlopen] raised (the
    traceback goes to the error stream, which is not modelled). *)
Definition _fetch_url (url : str) : M (option str) :=
  print (lit "downloding gfwlist from " ++ url);;
  net ← gets urlopen;
  match net url with
  | Some data => mret (Some data)
  | None => print (lit "download " ++ url ++ lit " failed");; mret None
  end.

(** Bytes are true in a condition when there is one at least. *)
Definition truthy (data : option str) : bool :=
  match data with Some (_ :: _) => true | _ => false end.

Fixpoint fetch_from (urls : list str) : M (option str) :=
  match urls with
  | [] => print (lit "fail to download gfwlist");; mret None
  | url :: urls' =>
      data ← _fetch_url url;
      if truthy data then mret data else fetch_from urls'
  end.

Definition fetch : M (option str) := fetch_from URLs.

(** ** [GfwList.run] *)

Section Run.

(** [base64.b64decode(data).decode('utf-8')]; [None] when it raises. *)
Variable b64decode_utf8 : str -> option str.

(** [gfwlist_fname] is [None] when the flag is absent. *)
Definition run (output : str) (download : bool) (gfwlist_fname : option str)
    (format : str) : M unit :=
  let convert (data : str) : M unit :=
    when (download && truthy gfwlist_fname)
         (write_file (default [] gfwlist_fname) data);;
    parse data;;
    add_extra_domains;;
    if bool_decide (format = lit "raw") then format_raw output
    else if bool_decide (format = lit "adguardhome")
         then format_adguardhome output
    else mret tt in
  if download then
    data ← fetch;
    match data with
    | None => raise TypeError
    | Some bytes =>
        match b64decode_utf8 bytes with
        | Some text => convert text
        | None => raise ValueError
        end
    end
  else if truthy gfwlist_fname then
    data ← read_file (default [] gfwlist_fname);
    convert data
  else
    print (lit "either download or gfwlist_fname must be specified").

End Run.

(** The state in which [GfwList(dns_server)] starts. *)
Definition init (dns : str) (fs : gmap str str) (net : str -> option str)
    : state :=
  State ∅ dns [] fs net.

(** ** What a pattern matches

    [matches r i u v g g']: at position [i], with [v] the text after it, the
    pattern [r] matches the text [u] and turns the captures [g] into [g'].
    The matcher above is sound and complete for this relation. *)

Inductive matches : regex -> nat -> str -> str -> caps -> caps -> Prop :=
| M_Empty i v g : matches Empty i [] v g g
| M_Chr c i v g : matches (Chr c) i [c] v g g
| M_Cls p c i v g : p c = true -> matches (Cls p) i [c] v g g
| M_Bol v g : matches Bol 0 [] v g g
| M_Eol i v g : v = [] \/ v = [10%N] -> matches Eol i [] v g g
| M_Cat r1 r2 i u1 u2 v g g1 g2 :
    matches r1 i u1 (u2 ++ v) g g1 ->
    matches r2 (i + length u1) u2 v g1 g2 ->
    matches (Cat r1 r2) i (u1 ++ u2) v g g2
| M_Alt_l r1 r2 i u v g g' :
    matches r1 i u v g g' -> matches (Alt r1 r2) i u v g g'
| M_Alt_r r1 r2 i u v g g' :
    matches r2 i u v g g' -> matches (Alt r1 r2) i u v g g'
| M_Rep_done hi r i v g : matches (Rep 0 hi r) i [] v g g
| M_Rep_more lo hi r i u1 u2 v g g1 g2 :
    can_repeat hi = true ->
    u1 <> [] ->
    matches r i u1 (u2 ++ v) g g1 ->
    matches (Rep (pred lo) (pred <$> hi) r) (i + length u1) u2 v g1 g2 ->
    matches (Rep lo hi r) i (u1 ++ u2) v g g2
| M_Grp n r i u v g g' :
    matches r i u v g g' -> matches (Grp n r) i u v g (<[n := u]> g').

(** The numbers of the groups of a pattern. *)
Fixpoint group_numbers (r : regex) : list nat :=
  match r with
  | Cat r1 r2 | Alt r1 r2 => group_numbers r1 ++ group_numbers r2
  | Rep _ _ r' => group_numbers r'
  | Grp n r' => n :: group_numbers r'
  | _ => []
  end.

(** Whether a pattern can match the empty text. *)
Fixpoint nullable (r : regex) : bool :=
  match r with
  | Empty | Bol | Eol => true
  | Chr _ | Cls _ => false
  | Cat r1 r2 => nullable r1 && nullable r2
  | Alt r1 r2 => nullable r1 || nullable r2
  | Rep lo _ r' => (lo =? 0) || nullable r'
  | Grp _ r' => nullable r'
  end.

(** No repetition has a body that can match the empty text: [rep_loop]
    never has to give up an iteration for having consumed nothing. *)
Fixpoint rep_bodies_consume (r : regex) : bool :=
  match r with
  | Cat r1 r2 | Alt r1 r2 => rep_bodies_consume r1 && rep_bodies_consume r2
  | Rep _ _ r' => negb (nullable r') && rep_bodies_consume r'
  | Grp _ r' => rep_bodies_consume r'
  | _ => true
  end.

(** ** The shape of a canonical domain *)

(** The pieces of [s] between its dots. *)
Fixpoint labels (s : str) : list str :=
  match s with
  | [] => [[]]
  | c :: s' =>
      if N.eqb c 46 then [] :: labels s'
      else match labels s' with
           | l :: ls => (c :: l) :: ls
           | [] => [[c]]
           end
  end.

(** A label: letters, digits and hyphens, the first one not a hyphen. *)
Definition label_ok (l : str) : bool :=
  match l with
  | [] => false
  | c :: l' => alnum c && forallb hyphen_alnum l'
  end.

(** Two labels or more, with a dot between them. *)
Definition CanonicalDomain (d : str) : bool :=
  (2 <=? length (labels d)) && forallb label_ok (labels d).

(** Every domain of the set is canonical. *)
Definition all_canonical (st : state) : Prop :=
  forall d, d ∈ domains st -> CanonicalDomain d = true.

(** What is left of a line once its head and its tail are stripped. *)
Definition stripped (line : str) : str :=
  sub tail_filter_pattern [] (sub head_filter_pattern [] line).

(** The line is discarded: the call returns and adds no domain. *)
Definition returns_none (line : str) (st : state) : Prop :=
  (_parse_line line st).1 = Ret tt /\
  domains (_parse_line line st).2 = domains st.

(** A fresh [GfwList] with the default resolver, no file and no network. *)
Definition fresh : state :=
  init DEFAULT_SECURE_DNS_SERVER ∅ (fun _ => None).

(** ** Lines *)

(** A text without a line feed, as every line that [splitlines] yields. *)
Definition no_LF (s : str) : Prop := Forall (fun c => c <> 10%N) s.

(** A dotted quad: four runs of digits with dots between them. *)
Definition dotted_quad (q : str) : Prop :=
  exists d1 d2 d3 d4 : str,
    q = d1 ++ lit "." ++ d2 ++ lit "." ++ d3 ++ lit "." ++ d4 /\
    Forall (fun d => d <> [] /\ forallb digit d = true) [d1; d2; d3; d4].

(** [s] has [q] somewhere inside. *)
Definition contains (q s : str) : Prop :=
  exists pre post : str, s = pre ++ q ++ post.

(** ** What a call leaves behind *)

(** The state with the domains [D] added and the messages [out] printed. *)
Definition extend (D : gset str) (out : list str) (st : state) : state :=
  set_domains (D ∪ domains st) (set_stdout (stdout st ++ out) st).


(** ** The two strips, written by hand

    What the comments above the two filter patterns ask for, written without
    patterns; the strips of [_parse_line] are compared with them below. *)

(** "starting || or |" removed. *)
Definition remove_bars (s : str) : str :=
  if startswith (lit "||") s then drop 2 s
  else if startswith (lit "|") s then drop 1 s
  else s.

(** "url protocol (http:// or https://)" removed. *)
Definition remove_scheme (s : str) : str :=
  if startswith (lit "http://") s then drop 7 s
  else if startswith (lit "https://") s then drop 8 s
  else s.

(** "the path and query string" removed: the text before the first [/] or
    [%2F]. *)
Fixpoint before_path (s : str) : str :=
  match s with
  | [] => []
  | c :: s' =>
      if N.eqb c 47 || startswith (lit "%2F") s then []
      else c :: before_path s'
  end.

(** What [_fetch_url] prints for a mirror: that it is tried, and that it
    failed when [urlopen] raised. *)
Definition fetch_messages (st : state) (url : str) : list str :=
  (lit "downloding gfwlist from " ++ url) ::
  match urlopen st url with
  | Some _ => []
  | None => [lit "download " ++ url ++ lit " failed"]
  end.


(** ** Properties of the matcher *)

Create HintDb re.
#[local] Hint Constructors matches : re.

Lemma orelse_Some {A} (x y : option A) (a : A) :
  orelse x y = Some a -> x = Some a \/ (x = None /\ y = Some a).
Proof. destruct x; simpl; auto. Qed.

Lemma take_length_app (u v : str) (i : nat) :
  take (i + length u - i) (u ++ v) = u.
Proof.
  replace (i + length u - i) with (length u) by lia.
  by rewrite take_app_length.
Qed.

(** Soundness of one repetition, given that of its body. *)
Lemma rep_loop_sound {A} (r : regex) (k : cont A) :
  (forall i s g (k' : cont A) x,
      rmatch r i s g k' = Some x ->
      exists u v g', s = u ++ v /\ matches r i u v g g' /\
                     k' (i + length u) v g' = Some x) ->
  forall fuel lo hi i s g x,
    rep_loop (rmatch r) k fuel lo hi i s g = Some x ->
    exists u v g', s = u ++ v /\ matches (Rep lo hi r) i u v g g' /\
                   k (i + length u) v g' = Some x.
Proof.
  intros Hbody. induction fuel as [|fuel IH]; intros lo hi i s g x H;
    simpl in H; [discriminate|]. apply orelse_Some in H as [H | [_ H]].
  - destruct (can_repeat hi) eqn:Hhi; [|done].
    apply Hbody in H as (u1 & v1 & g1 & -> & Hm1 & H).
    destruct (length v1 <? length (u1 ++ v1)) eqn:Hlt; [|done].
    apply Nat.ltb_lt in Hlt. rewrite length_app in Hlt.
    apply IH in H as (u2 & v & g2 & -> & Hm2 & H).
    exists (u1 ++ u2), v, g2. split; [by rewrite app_assoc|]. split.
    + apply M_Rep_more with g1; auto. destruct u1; [simpl in Hlt; lia|done].
    + by rewrite length_app, Nat.add_assoc.
  - destruct (lo =? 0) eqn:Hlo; [|done]. apply Nat.eqb_eq in Hlo as ->.
    exists [], s, g. rewrite Nat.add_0_r.
    split; [done|]. split; [apply M_Rep_done | done].
Qed.

(** Soundness: a success of the matcher is a match followed by a success
    of the continuation. *)
Lemma rmatch_sound {A} (r : regex) :
  forall i s g (k : cont A) x,
    rmatch r i s g k = Some x ->
    exists u v g', s = u ++ v /\ matches r i u v g g' /\
                   k (i + length u) v g' = Some x.
Proof.
  induction r as [|c|p| | |r1 IH1 r2 IH2|r1 IH1 r2 IH2|lo hi r IH|n r IH];
    intros i s g k x H; simpl in H.
  - exists [], s, g. rewrite Nat.add_0_r. auto with re.
  - destruct s as [|a s]; [done|]. destruct (N.eqb a c) eqn:E; [|done].
    apply N.eqb_eq in E as ->. exists [c], s, g. simpl.
    rewrite Nat.add_1_r. auto with re.
  - destruct s as [|a s]; [done|]. destruct (p a) eqn:E; [|done].
    exists [a], s, g. simpl. rewrite Nat.add_1_r. auto with re.
  - destruct (i =? 0) eqn:E; [|done]. apply Nat.eqb_eq in E as ->.
    exists [], s, g. simpl. auto with re.
  - exists [], s, g. rewrite Nat.add_0_r.
    destruct s as [|a [|b s]]; [auto with re| |done].
    destruct (N.eqb a 10) eqn:E; [|done]. apply N.eqb_eq in E as ->.
    auto with re.
  - apply IH1 in H as (u1 & v1 & g1 & -> & Hm1 & H).
    apply IH2 in H as (u2 & v & g2 & -> & Hm2 & H).
    exists (u1 ++ u2), v, g2. split; [by rewrite app_assoc|]. split.
    + by apply M_Cat with g1.
    + by rewrite length_app, Nat.add_assoc.
  - apply orelse_Some in H as [H | [_ H]].
    + apply IH1 in H as (u & v & g' & ? & ? & ?). eauto 8 with re.
    + apply IH2 in H as (u & v & g' & ? & ? & ?). eauto 8 with re.
  - apply (rep_loop_sound r k IH (S (length s))). exact H.
  - apply IH in H as (u & v & g' & -> & Hm & H).
    rewrite take_length_app in H. eauto 8 with re.
Qed.

Lemma orelse_is_Some_l {A} (x y : option A) :
  is_Some x -> is_Some (orelse x y).
Proof. by intros [a ->]. Qed.

Lemma orelse_is_Some_r {A} (x y : option A) :
  is_Some y -> is_Some (orelse x y).
Proof. destruct x; simpl; eauto. Qed.

(** Completeness: where a match exists after which the continuation
    succeeds, the matcher succeeds, with any fuel beyond the length of the
    text for a repetition. *)
Lemma rmatch_complete_fuel {A} r i u v g0 g0' :
  matches r i u v g0 g0' ->
  forall k : cont A,
    (forall h, is_Some (k (i + length u) v h)) ->
    forall g,
      is_Some (rmatch r i (u ++ v) g k) /\
      match r with
      | Rep lo hi r' =>
          forall fuel, length (u ++ v) < fuel ->
                       is_Some (rep_loop (rmatch r') k fuel lo hi i (u ++ v) g)
      | _ => True
      end.
Proof.
  induction 1 as [i v g0|c i v g0|p c i v g0 Hp|v g0|i v g0 Hv
                 |r1 r2 i u1 u2 v g0 g1 g2 _ IH1 _ IH2
                 |r1 r2 i u v g0 g1 _ IH|r1 r2 i u v g0 g1 _ IH
                 |hi r i v g0
                 |lo hi r i u1 u2 v g0 g1 g2 Hhi Hne _ IH1 _ IH2
                 |n r i u v g0 g1 _ IH];
    intros k Hk g.
  - split; [|done]. simpl in *. rewrite Nat.add_0_r in Hk. apply Hk.
  - split; [|done]. simpl in *. rewrite N.eqb_refl.
    rewrite Nat.add_1_r in Hk. apply Hk.
  - split; [|done]. simpl in *. rewrite Hp.
    rewrite Nat.add_1_r in Hk. apply Hk.
  - split; [|done]. simpl in *. apply Hk.
  - split; [|done]. simpl in *. rewrite Nat.add_0_r in Hk.
    destruct Hv as [-> | ->]; simpl; apply Hk.
  - split; [|done]. simpl. rewrite <- app_assoc. apply IH1.
    intros h. apply IH2. intros h'.
    rewrite <- Nat.add_assoc, <- length_app. apply Hk.
  - split; [|done]. simpl. apply orelse_is_Some_l, IH, Hk.
  - split; [|done]. simpl. apply orelse_is_Some_r, IH, Hk.
  - assert (forall fuel, length ([] ++ v) < fuel ->
              is_Some (rep_loop (rmatch r) k fuel 0 hi i ([] ++ v) g)) as Hf.
    { intros [|fuel] Hlt; [lia|]. simpl. apply orelse_is_Some_r.
      rewrite Nat.add_0_r in Hk. apply Hk. }
    split; [|exact Hf]. apply Hf. lia.
  - assert (forall fuel, length ((u1 ++ u2) ++ v) < fuel ->
              is_Some (rep_loop (rmatch r) k fuel lo hi i ((u1 ++ u2) ++ v) g))
      as Hf.
    { intros [|fuel] Hlt; [lia|]. simpl. apply orelse_is_Some_l.
      rewrite Hhi, <- app_assoc. apply IH1. intros h.
      rewrite <- app_assoc, !length_app in Hlt.
      assert (0 < length u1) as Hpos by (destruct u1; [done|simpl; lia]).
      assert (Hg : (length (u2 ++ v) <? length (u1 ++ u2 ++ v)) = true).
      { apply Nat.ltb_lt. rewrite !length_app. lia. }
      rewrite Hg. apply IH2.
      - intros h'. rewrite <- Nat.add_assoc, <- length_app. apply Hk.
      - rewrite length_app. lia. }
    split; [|exact Hf]. apply Hf. lia.
  - split; [|done]. simpl. apply IH. intros h. apply Hk.
Qed.

Lemma rmatch_complete {A} r i u v g0 g0' (k : cont A) g :
  matches r i u v g0 g0' ->
  (forall h, is_Some (k (i + length u) v h)) ->
  is_Some (rmatch r i (u ++ v) g k).
Proof. intros Hm Hk. by apply (rmatch_complete_fuel r i u v g0 g0' Hm k). Qed.

(** A pattern leaves the groups that are not its own as they were. *)
Lemma matches_frame r i u v g g' :
  matches r i u v g g' ->
  forall n, n ∉ group_numbers r -> g' !! n = g !! n.
Proof.
  induction 1 as [| | | | |r1 r2 i u1 u2 v g0 g1 g2 _ IH1 _ IH2
                 |r1 r2 i u v g0 g1 _ IH|r1 r2 i u v g0 g1 _ IH|
                 |lo hi r i u1 u2 v g0 g1 g2 _ _ _ IH1 _ IH2
                 |m r i u v g0 g1 _ IH];
    intros n Hn; simpl in Hn; try done.
  - rewrite IH2, IH1; set_solver.
  - apply IH. set_solver.
  - apply IH. set_solver.
  - rewrite IH2, IH1; set_solver.
  - rewrite lookup_insert_ne by set_solver. apply IH. set_solver.
Qed.

(** *** [search] *)

Lemma match_at_sound r adv i s m :
  match_at r adv i s = Some m ->
  exists u v, s = u ++ v /\ matches r i u v ∅ (mcaps m) /\
              mstart m = i /\ mend m = i + length u /\
              (adv = true -> u <> []).
Proof.
  unfold match_at. intros H.
  apply rmatch_sound in H as (u & v & g' & -> & Hm & H).
  exists u, v. destruct (adv && (i + length u =? i)) eqn:E; [done|].
  injection H as <-. simpl. repeat split; auto.
  intros -> ->. simpl in E. rewrite Nat.add_0_r, Nat.eqb_refl in E. done.
Qed.

Lemma search_from_sound r adv i s m :
  search_from r adv i s = Some m ->
  exists pre u v, s = pre ++ u ++ v /\
                  matches r (i + length pre) u v ∅ (mcaps m) /\
                  mstart m = i + length pre /\
                  mend m = i + length pre + length u /\
                  (adv = true -> pre = [] -> u <> []).
Proof.
  revert adv i. induction s as [|c s IH]; intros adv i H; simpl in H.
  - destruct (match_at r adv i []) as [m'|] eqn:E; [|done].
    injection H as ->. apply match_at_sound in E as (u & v & ? & ? & ? & ? & ?).
    exists [], u, v. simpl. rewrite Nat.add_0_r. auto 10.
  - destruct (match_at r adv i (c :: s)) as [m'|] eqn:E.
    + injection H as ->.
      apply match_at_sound in E as (u & v & ? & ? & ? & ? & ?).
      exists [], u, v. simpl. rewrite Nat.add_0_r. auto 10.
    + apply IH in H as (pre & u & v & -> & Hm & Hs & He & _).
      exists (c :: pre), u, v. simpl.
      rewrite <- Nat.add_succ_comm. repeat split; auto.
Qed.

Lemma search_from_complete r i pre u v g g' :
  matches r (i + length pre) u v g g' ->
  is_Some (search_from r false i (pre ++ u ++ v)).
Proof.
  revert i. induction pre as [|c pre IH]; intros i Hm.
  - simpl in Hm. rewrite Nat.add_0_r in Hm.
    assert (is_Some (match_at r false i (u ++ v))) as [m Hs].
    { unfold match_at. eapply rmatch_complete; eauto. }
    destruct u, v; simpl in *; rewrite Hs; eauto.
  - simpl in *. destruct (match_at r false i (c :: pre ++ u ++ v)); [eauto|].
    apply IH. by rewrite Nat.add_succ_comm.
Qed.

Lemma search_complete r pre u v g g' :
  matches r (length pre) u v g g' ->
  is_match (search r (pre ++ u ++ v)) = true.
Proof.
  intros Hm. destruct (search_from_complete r 0 pre u v g g' Hm) as [m Hs].
  unfold search. by rewrite Hs.
Qed.

(** *** The texts of the patterns' pieces *)

(** Inversion, one lemma for each construct. *)
Lemma chr_inv c i u v g g' :
  matches (Chr c) i u v g g' -> u = [c] /\ g' = g.
Proof. by inversion 1. Qed.

Lemma cls_inv p i u v g g' :
  matches (Cls p) i u v g g' -> exists c, u = [c] /\ p c = true /\ g' = g.
Proof. inversion 1; subst; eauto. Qed.

Lemma bol_inv i u v g g' :
  matches Bol i u v g g' -> i = 0 /\ u = [] /\ g' = g.
Proof. by inversion 1. Qed.

Lemma eol_inv i u v g g' :
  matches Eol i u v g g' -> u = [] /\ g' = g /\ (v = [] \/ v = [10%N]).
Proof. by inversion 1. Qed.

Lemma cat_inv r1 r2 i u v g g' :
  matches (Cat r1 r2) i u v g g' ->
  exists u1 u2 g1, u = u1 ++ u2 /\ matches r1 i u1 (u2 ++ v) g g1 /\
                   matches r2 (i + length u1) u2 v g1 g'.
Proof. inversion 1; subst; eauto 8. Qed.

Lemma alt_inv r1 r2 i u v g g' :
  matches (Alt r1 r2) i u v g g' ->
  matches r1 i u v g g' \/ matches r2 i u v g g'.
Proof. inversion 1; subst; eauto. Qed.

Lemma grp_inv n r i u v g g' :
  matches (Grp n r) i u v g g' ->
  exists g1, matches r i u v g g1 /\ g' = <[n := u]> g1.
Proof. inversion 1; subst; eauto. Qed.

Lemma rep_inv lo hi r i u v g g' :
  matches (Rep lo hi r) i u v g g' ->
  (lo = 0 /\ u = [] /\ g' = g) \/
  (can_repeat hi = true /\
   exists u1 u2 g1, u1 <> [] /\ u = u1 ++ u2 /\
                    matches r i u1 (u2 ++ v) g g1 /\
                    matches (Rep (pred lo) (pred <$> hi) r)
                            (i + length u1) u2 v g1 g').
Proof.
  inversion 1; subst; [by left|]. right. split; [done|].
  eexists _, _, _. repeat split; eassumption.
Qed.

Ltac inv_matches :=
  repeat match goal with
    | H : matches (Chr _) _ _ _ _ _ |- _ => apply chr_inv in H as [-> ->]
    | H : matches (Cls _) _ _ _ _ _ |- _ =>
        apply cls_inv in H as (? & -> & ? & ->)
    | H : matches Bol _ _ _ _ _ |- _ => apply bol_inv in H as (-> & -> & ->)
    | H : matches Eol _ _ _ _ _ |- _ => apply eol_inv in H as (-> & -> & ?)
    | H : matches (Cat _ _) _ _ _ _ _ |- _ =>
        apply cat_inv in H as (? & ? & ? & -> & ? & ?)
    | H : matches (Grp _ _) _ _ _ _ _ |- _ =>
        apply grp_inv in H as (? & ? & ->)
    end.

(** [[...]*] matches characters of the class, and sets no group. *)
Lemma star_cls_inv p i u v g g' :
  matches (Star (Cls p)) i u v g g' -> forallb p u = true /\ g' = g.
Proof.
  unfold Star. remember (Rep 0 None (Cls p)) as R eqn:HR. intros H.
  induction H as [| | | | | | | |
                  |lo hi r i u1 u2 v g g1 g2 _ _ H1 _ H2 IH2|]; try done.
  injection HR as -> -> ->. inv_matches. simpl.
  destruct (IH2 eq_refl) as [-> ->]. split; [|done].
  by apply andb_true_iff.
Qed.

Ltac inv_star :=
  inv_matches;
  repeat match goal with
    | H : matches (Star (Cls _)) _ _ _ _ _ |- _ =>
        apply star_cls_inv in H as [? ->]
    end.

Lemma labels_nonempty s : labels s <> [].
Proof.
  destruct s as [|c s]; [done|]. simpl.
  destruct (N.eqb c 46); [done|]. by destruct (labels s).
Qed.

Lemma labels_cons c s :
  c <> 46%N ->
  exists l ls, labels s = l :: ls /\ labels (c :: s) = (c :: l) :: ls.
Proof.
  intros Hc. simpl. apply N.eqb_neq in Hc. rewrite Hc.
  pose proof (labels_nonempty s). destruct (labels s) as [|l ls]; [done|].
  eauto.
Qed.

(** A text without a dot is one label; a dot ends the label before it. *)
Lemma labels_app_dot w rest :
  Forall (fun c => c <> 46%N) w ->
  labels (w ++ 46%N :: rest) = w :: labels rest.
Proof.
  induction 1 as [|c w Hc _ IH]; [done|].
  destruct (labels_cons c (w ++ 46%N :: rest) Hc) as (l & ls & Hl & Hcl).
  rewrite <- app_comm_cons, Hcl. rewrite IH in Hl. by injection Hl as <- <-.
Qed.

Lemma labels_no_dot w :
  Forall (fun c => c <> 46%N) w -> labels w = [w].
Proof.
  induction 1 as [|c w Hc _ IH]; [done|].
  destruct (labels_cons c w Hc) as (l & ls & Hl & Hcl).
  rewrite Hcl. rewrite IH in Hl. by injection Hl as <- <-.
Qed.

Lemma hyphen_alnum_no_dot c : hyphen_alnum c = true -> c <> 46%N.
Proof. by intros H ->. Qed.

Lemma alnum_hyphen_alnum c : alnum c = true -> hyphen_alnum c = true.
Proof. unfold hyphen_alnum. intros ->. apply orb_true_r. Qed.

Lemma label_ok_chars l :
  label_ok l = true -> forallb hyphen_alnum l = true.
Proof.
  destruct l as [|c l]; [done|]. simpl. intros [Hc ->]%andb_true_iff.
  by rewrite (alnum_hyphen_alnum c Hc).
Qed.

Lemma label_ok_no_dot l :
  label_ok l = true -> Forall (fun c => c <> 46%N) l.
Proof.
  intros H%label_ok_chars. apply Forall_forall. intros c Hc.
  apply hyphen_alnum_no_dot. rewrite forallb_forall in H. apply H.
  by apply list_elem_of_In.
Qed.

(** Labels joined to a first one by dots are the labels of the result. *)
Lemma labels_join w ls :
  Forall (fun c => c <> 46%N) w ->
  forallb label_ok ls = true ->
  labels (w ++ concat (cons 46%N <$> ls)) = w :: ls.
Proof.
  revert w. induction ls as [|l ls IH]; intros w Hw Hls; simpl.
  - rewrite app_nil_r. by apply labels_no_dot.
  - apply andb_true_iff in Hls as [Hl Hls].
    rewrite labels_app_dot by done. f_equal. apply IH; [|done].
    by apply label_ok_no_dot.
Qed.

(** The repeated group of the domain shape: labels, a dot before each. *)
Lemma dot_labels_inv n lo i z v g g' :
  matches (Rep lo None
             (Grp n (Lits "." ++ Cls alnum ++ Star (Cls hyphen_alnum))%re))
          i z v g g' ->
  exists ls, z = concat (cons 46%N <$> ls) /\
             forallb label_ok ls = true /\ lo <= length ls.
Proof.
  remember (Rep lo None _) as R eqn:HR. intros H. revert lo HR.
  induction H as [| | | | | | | |hi r i v g
                  |lo' hi r i u1 u2 v g g1 g2 _ _ H1 _ H2 IH2|];
    intros lo HR; try done.
  - injection HR as <- -> ->. by exists [].
  - injection HR as -> -> ->.
    destruct (IH2 (pred lo) eq_refl) as (ls & -> & Hls & Hlo).
    change (Lits ".") with (Chr 46) in H1. inv_star.
    match goal with
    | Hc : alnum ?c = true, Hl : forallb hyphen_alnum ?l = true |- _ =>
        exists ((c :: l) :: ls); simpl; rewrite Hc, Hl, Hls
    end.
    split; [done|]. split; [done|lia].
Qed.

(** Whatever the domain shape matches is a canonical domain. *)
Lemma domain_shape_canonical n i u v g g' :
  matches (domain_shape n) i u v g g' -> CanonicalDomain u = true.
Proof.
  unfold domain_shape. intros H. inv_star.
  match goal with
  | H : matches (Plus _) _ _ _ _ _ |- _ =>
      apply dot_labels_inv in H as (ls & -> & Hls & Hlo)
  end.
  match goal with
  | Hc : alnum ?c' = true, Hw' : forallb hyphen_alnum ?w' = true |- _ =>
      rename c' into c; rename w' into w; rename Hw' into Hw
  end.
  unfold CanonicalDomain.
  assert (labels ([c] ++ w ++ concat (cons 46%N <$> ls)) = (c :: w) :: ls)
    as ->.
  { rewrite app_assoc. apply labels_join; [|done]. simpl.
    apply label_ok_no_dot. simpl. by apply andb_true_iff. }
  simpl. apply andb_true_iff. split.
  - destruct ls; [simpl in Hlo; lia|done].
  - apply andb_true_iff. split; [by apply andb_true_iff|done].
Qed.

(** *** What a canonical domain cannot contain *)

Lemma canonical_chars_aux d :
  forallb (forallb hyphen_alnum) (labels d) = true ->
  Forall (fun c => hyphen_alnum c = true \/ c = 46%N) d.
Proof.
  induction d as [|c d IH]; [done|]. intros H.
  destruct (N.eq_dec c 46%N) as [->|Hc].
  - simpl in H. auto.
  - destruct (labels_cons c d Hc) as (l & ls & Hl & Hcl).
    rewrite Hcl in H. rewrite Hl in IH. simpl in *.
    apply andb_true_iff in H as [[Hc' Hl']%andb_true_iff Hls].
    constructor; [by left|]. apply IH. by rewrite Hl'.
Qed.

Lemma canonical_chars d :
  CanonicalDomain d = true ->
  Forall (fun c => hyphen_alnum c = true \/ c = 46%N) d.
Proof.
  unfold CanonicalDomain. intros [_ H]%andb_true_iff.
  apply canonical_chars_aux. rewrite forallb_forall in *.
  intros l Hl. by apply label_ok_chars, H.
Qed.

(** No wildcard character is left. *)
Lemma canonical_no_wildcard d : CanonicalDomain d = true -> 42%N ∉ d.
Proof.
  intros H%canonical_chars Hin. rewrite Forall_forall in H.
  by destruct (H _ Hin).
Qed.

(** No leading dot. *)
Lemma canonical_no_leading_dot d :
  CanonicalDomain d = true -> head d <> Some 46%N.
Proof.
  unfold CanonicalDomain. intros [_ H]%andb_true_iff.
  destruct d as [|c d]; [done|]. intros [= ->]. done.
Qed.

Lemma labels_snoc_dot d : labels (d ++ [46%N]) = labels d ++ [[]].
Proof.
  induction d as [|c d IH]; [done|]. simpl. rewrite IH.
  destruct (N.eqb c 46); [done|].
  pose proof (labels_nonempty d). by destruct (labels d).
Qed.

(** No trailing dot. *)
Lemma canonical_no_trailing_dot d :
  CanonicalDomain d = true -> last d <> Some 46%N.
Proof.
  unfold CanonicalDomain. intros [_ H]%andb_true_iff Hl.
  apply last_Some in Hl as [d' ->]. rewrite labels_snoc_dot in H.
  rewrite forallb_app in H. simpl in H. by rewrite andb_false_r in H.
Qed.

(** In the five patterns every repetition has a body that consumes a
    character: the test of [rep_loop] on the length never fails them. *)
Lemma patterns_rep_bodies_consume :
  forallb rep_bodies_consume
    [ignore_pattern; head_filter_pattern; tail_filter_pattern;
     domain_pattern; wildcard_pattern] = true.
Proof. reflexivity. Qed.

(** *** [wildcard_pattern]: its fourth group *)

(** A match of [wildcard_pattern] has its fourth group set, to a canonical
    domain. *)
Lemma wildcard_group4 line m :
  search wildcard_pattern line = Some m ->
  exists d, groups 6 m !! 3 = Some (Some d) /\ CanonicalDomain d = true.
Proof.
  unfold search. intros H.
  apply search_from_sound in H as (pre & u & v & _ & Hm & _).
  change (groups 6 m !! 3) with (Some (mcaps m !! 4)).
  remember (mcaps m) as gm eqn:Hgm. clear Hgm.
  unfold wildcard_pattern in Hm.
  apply cat_inv in Hm as (u0 & u' & g0 & -> & _ & Hm).
  apply cat_inv in Hm as (u1 & u'' & g1 & -> & _ & Hm).
  apply cat_inv in Hm as (d & u2 & g2 & -> & Hd & Hm).
  apply grp_inv in Hd as (g3 & Hd & ->).
  exists d. split; [|by eapply domain_shape_canonical].
  f_equal. rewrite (matches_frame _ _ _ _ _ _ Hm 4).
  - apply lookup_insert_eq.
  - rewrite list_elem_of_In. simpl. intuition lia.
Qed.

(** *** [_parse_line], case by case *)

Ltac unfold_M :=
  cbv [mbind mret M_bind M_ret bind ret raise when print gets
       domains_add domains_update write_file].

(** The four ways in which [_parse_line] ends: the line is ignored, no
    domain is found in it, the wildcard pattern does not match (the call of
    [groups] on [None] raises), or a canonical domain is added. *)
Lemma parse_line_cases line st :
  let stripped := sub tail_filter_pattern [] (sub head_filter_pattern [] line) in
  let diag := if startswith (lit "/") line then [manual_msg line] else [] in
  (is_match (search ignore_pattern line) = true /\
   _parse_line line st = (Ret tt, set_stdout (stdout st ++ diag) st)) \/
  (is_match (search ignore_pattern line) = false /\
   is_match (search domain_pattern stripped) = false /\
   _parse_line line st = (Ret tt, set_stdout (stdout st ++ diag) st)) \/
  (is_match (search ignore_pattern line) = false /\
   is_match (search domain_pattern stripped) = true /\
   search wildcard_pattern stripped = None /\
   _parse_line line st = (Raise AttributeError, st)) \/
  (exists d m,
     is_match (search ignore_pattern line) = false /\
     is_match (search domain_pattern stripped) = true /\
     search wildcard_pattern stripped = Some m /\
     groups 6 m !! 3 = Some (Some d) /\
     CanonicalDomain d = true /\
     _parse_line line st =
       (Ret tt,
        set_domains ({[d]} ∪ domains st)
          (set_stdout
             (stdout st ++ if startswith (lit "/") line
                           then [regex_rule_msg stripped d] else [])
             st))).
Proof.
  intros stripped diag. unfold _parse_line. fold stripped.
  assert (set_stdout (stdout st ++ []) st = st) as Hnil.
  { rewrite app_nil_r. by destruct st. }
  subst diag. generalize (startswith (lit "/") line). intros b.
  destruct (is_match (search ignore_pattern line)) eqn:Hi.
  { left. split; [done|]. unfold_M. destruct b; [done|]. by rewrite Hnil. }
  right.
  destruct (is_match (search domain_pattern stripped)) eqn:Hd; cbn [negb].
  2:{ left. repeat split. unfold_M. destruct b; [done|]. by rewrite Hnil. }
  right. destruct (search wildcard_pattern stripped) as [m|] eqn:Hw.
  2:{ by left. }
  right. destruct (wildcard_group4 _ _ Hw) as (d & Hg & Hc).
  exists d, m. rewrite Hg. repeat split; [done|]. unfold_M.
  destruct b; [done|]. by rewrite Hnil.
Qed.

Lemma parse_line_canonical line st :
  all_canonical st -> all_canonical (_parse_line line st).2.
Proof.
  intros Hst.
  destruct (parse_line_cases line st)
    as [[_ ->] | [(_ & _ & ->) | [(_ & _ & _ & ->)
       | (d & m & _ & _ & _ & _ & Hd & ->)]]];
    try done.
  intros d' [->%elem_of_singleton | Hin]%elem_of_union; auto.
Qed.

Lemma for_each_canonical lines st :
  all_canonical st -> all_canonical (for_each lines _parse_line st).2.
Proof.
  revert st. induction lines as [|line lines IH]; intros st Hst; [done|].
  simpl. unfold_M. pose proof (parse_line_canonical line st Hst) as H.
  destruct (_parse_line line st) as [[[]|e] st']; simpl in *; auto.
Qed.

Lemma parse_canonical data st :
  all_canonical st -> all_canonical (parse data st).2.
Proof.
  intros Hst. unfold parse.
  destruct (length (splitlines data) =? 0); [done|].
  destruct (negb _); [done|]. unfold_M.
  pose proof (for_each_canonical (splitlines data) st Hst) as H.
  destruct (for_each (splitlines data) _parse_line st) as [[[]|e] st'];
    simpl in *; auto.
Qed.

Lemma extra_domains_canonical :
  forallb CanonicalDomain
    (google_domains ++ blogspot_domains ++ [lit "twimg.edgesuite.net"]) = true.
Proof. vm_compute. reflexivity. Qed.

Lemma add_extra_domains_domains st :
  domains (add_extra_domains st).2 =
  {[lit "twimg.edgesuite.net"]} ∪
    (domains st ∪ list_to_set google_domains ∪ list_to_set blogspot_domains).
Proof. reflexivity. Qed.

Lemma add_extra_domains_canonical st :
  all_canonical st -> all_canonical (add_extra_domains st).2.
Proof.
  intros Hst d. rewrite add_extra_domains_domains.
  pose proof extra_domains_canonical as H. rewrite forallb_forall in H.
  rewrite !elem_of_union, !elem_of_list_to_set, elem_of_singleton.
  intros [-> | [[Hd | Hd] | Hd]]; auto; apply H, list_elem_of_In;
    rewrite !elem_of_app; auto.
Qed.

(** *** Stripping a line that begins with a slash *)

(** [head_filter_pattern] begins with [^]: no match after position 0. *)
Lemma head_filter_later adv i s :
  search_from head_filter_pattern adv (S i) s = None.
Proof.
  revert adv i. induction s as [|c s IH]; intros adv i; [done|].
  change (search_from head_filter_pattern adv (S i) (c :: s))
    with (search_from head_filter_pattern false (S (S i)) s).
  apply IH.
Qed.

(** Nothing is stripped from the head of a line that begins with [/]: the
    pattern matches the empty text at position 0, and nothing after it. *)
Lemma head_filter_slash rest :
  sub head_filter_pattern [] (47%N :: rest) = 47%N :: rest.
Proof.
  unfold sub.
  change (3 + 2 * length (47%N :: rest))
    with (S (S (S (2 * length (47%N :: rest))))).
  assert (search_from head_filter_pattern false 0 (47%N :: rest)
          = Some (MatchObj 0 0 ∅)) as H1 by reflexivity.
  assert (search_from head_filter_pattern true 0 (47%N :: rest)
          = search_from head_filter_pattern false 1 rest) as H2
    by reflexivity.
  cbn [sub_loop]. rewrite H1. cbn [mstart mend Nat.sub Nat.eqb take drop app].
  by rewrite H2, head_filter_later.
Qed.

(** On a text without a line feed, [.*$] runs to the end of the text. *)
Lemma star_any_eol {A} (k : cont A) u :
  no_LF u ->
  forall fuel i g,
    length u < fuel ->
    rep_loop (rmatch (Cls any)) (fun i' s' g' => rmatch Eol i' s' g' k)
             fuel 0 None i u g
    = k (i + length u) [] g.
Proof.
  induction 1 as [|c u Hc _ IH]; intros [|fuel] i g Hlt; try (simpl in Hlt; lia).
  - simpl. by rewrite Nat.add_0_r.
  - cbn [rep_loop can_repeat rmatch Nat.eqb].
    assert (any c = true) as -> by (unfold any; by apply negb_true_iff, N.eqb_neq).
    assert ((length u <? length (c :: u)) = true) as Hg
      by (apply Nat.ltb_lt; simpl; lia).
    rewrite Hg. cbn [fmap option_fmap option_map pred].
    rewrite IH by (simpl in Hlt; lia).
    cbn [length]. rewrite <- Nat.add_succ_comm.
    destruct (k (S i + length u) [] g); [done|]. simpl.
    destruct u; [|done]. apply N.eqb_neq in Hc. by rewrite Hc.
Qed.

(** The whole of a line that begins with [/] is stripped as its tail. *)
Lemma tail_filter_slash rest :
  no_LF rest -> sub tail_filter_pattern [] (47%N :: rest) = [].
Proof.
  intros Hrest. unfold sub.
  change (3 + 2 * length (47%N :: rest))
    with (S (S (S (2 * length (47%N :: rest))))).
  assert (match_at tail_filter_pattern false 0 (47%N :: rest)
          = Some (MatchObj 0 (S (length rest)) ∅)) as Hm.
  { change (match_at tail_filter_pattern false 0 (47%N :: rest))
      with (orelse
              (rep_loop (rmatch (Cls any))
                 (fun i' s' g' =>
                    rmatch Eol i' s' g'
                      (fun i'' _ g'' => Some (MatchObj 0 i'' g'')))
                 (S (length rest)) 0 None 1 rest ∅)
              None).
    rewrite star_any_eol by (done || lia). done. }
  cbn [sub_loop search_from]. rewrite Hm.
  cbn [mstart mend Nat.sub Nat.eqb take drop app].
  rewrite drop_all. done.
Qed.

(** *** The lines of [splitlines] *)

Lemma is_linebreak_LF c : is_linebreak c = false -> c <> 10%N.
Proof. by intros H ->. Qed.

Lemma splitlines_aux_no_LF n :
  forall s cur line,
    length s <= n -> no_LF cur ->
    line ∈ splitlines_aux cur s -> no_LF line.
Proof.
  unfold no_LF.
  assert (forall cur line,
             Forall (fun c => c <> 10%N) cur ->
             line ∈ match cur with [] => [] | _ => [rev cur] end ->
             Forall (fun c => c <> 10%N) line) as Hend.
  { intros cur line Hcur Hin.
    destruct cur; [by apply elem_of_nil in Hin|].
    apply list_elem_of_singleton in Hin as ->. by apply Forall_rev. }
  induction n as [|n IH]; intros [|c s] cur line Hn Hcur Hin;
    simpl in Hn; try lia; try (by apply (Hend cur)).
  cbn [splitlines_aux] in Hin. destruct (N.eqb c 13).
  - destruct s as [|c' s].
    + apply elem_of_cons in Hin as [-> | Hin]; [by apply Forall_rev|].
      by apply elem_of_nil in Hin.
    + destruct (N.eqb c' 10);
        apply elem_of_cons in Hin as [-> | Hin];
        try (by apply Forall_rev);
        eapply (IH _ []); try exact Hin; simpl in *; auto; lia.
  - destruct (is_linebreak c) eqn:Hc.
    + apply elem_of_cons in Hin as [-> | Hin]; [by apply Forall_rev|].
      eapply (IH _ []); try exact Hin; auto; lia.
    + eapply (IH _ (c :: cur)); try exact Hin; [lia|].
      constructor; [by apply is_linebreak_LF|done].
Qed.

(** No line of a document holds a line feed. *)
Lemma splitlines_no_LF data line :
  line ∈ splitlines data -> no_LF line.
Proof.
  intros H.
  apply (splitlines_aux_no_LF (length data) data [] line); [lia| |exact H].
  constructor.
Qed.

Lemma startswith_slash line :
  startswith (lit "/") line = true -> exists rest, line = 47%N :: rest.
Proof.
  destruct line as [|c rest]; [done|].
  change (startswith (lit "/") (c :: rest)) with (N.eqb 47 c && true).
  intros [<-%N.eqb_eq _]%andb_true_iff. eauto.
Qed.

(** A line that begins with [/] is discarded, with the request to add its
    domain by hand. *)
Lemma parse_line_slash rest st :
  no_LF rest ->
  _parse_line (47%N :: rest) st =
  (Ret tt, set_stdout (stdout st ++ [manual_msg (47%N :: rest)]) st).
Proof.
  intros Hrest.
  destruct (parse_line_cases (47%N :: rest) st)
    as [[_ H] | [(_ & _ & H) | [(_ & Hd & _) | (d & m & _ & Hd & _)]]];
    try exact H; exfalso; revert Hd;
    rewrite head_filter_slash, tail_filter_slash by done; done.
Qed.

(** *** Lines that the ignore test catches *)

Lemma star_cls_matches p d i v g :
  forallb p d = true -> matches (Star (Cls p)) i d v g g.
Proof.
  revert i. induction d as [|c d IH]; intros i Hd; [apply M_Rep_done|].
  simpl in Hd. apply andb_true_iff in Hd as [Hc Hd].
  apply (M_Rep_more 0 None (Cls p) i [c] d v g g g); try done.
  - by apply M_Cls.
  - apply IH, Hd.
Qed.

Lemma plus_cls_matches p d i v g :
  d <> [] -> forallb p d = true -> matches (Plus (Cls p)) i d v g g.
Proof.
  destruct d as [|c d]; [done|]. intros _ Hd. simpl in Hd.
  apply andb_true_iff in Hd as [Hc Hd].
  apply (M_Rep_more 1 None (Cls p) i [c] d v g g g); try done.
  - by apply M_Cls.
  - by apply star_cls_matches.
Qed.

(** The fourth alternative of [ignore_pattern] matches a dotted quad. *)
Lemma ignore_pattern_dotted_quad q i v g :
  dotted_quad q -> matches ignore_pattern i q v g g.
Proof.
  intros (d1 & d2 & d3 & d4 & -> & Hd).
  apply Forall_cons in Hd as [[? ?] Hd]. apply Forall_cons in Hd as [[? ?] Hd].
  apply Forall_cons in Hd as [[? ?] Hd]. apply Forall_cons in Hd as [[? ?] _].
  unfold ignore_pattern. apply M_Alt_r.
  apply (M_Cat _ _ i [] _ v g g g); [apply M_Rep_done|].
  repeat (eapply M_Cat;
          [by apply plus_cls_matches || apply (M_Chr 46%N)|]).
  by apply plus_cls_matches.
Qed.

(** The second alternative of [ignore_pattern] matches a bracket. *)
Lemma ignore_pattern_bracket i v g :
  matches ignore_pattern i [91%N] v g g.
Proof. unfold ignore_pattern. apply M_Alt_l, M_Alt_l, M_Alt_r, M_Chr. Qed.

(** An ignored line: nothing is added, the call returns. *)
Lemma parse_line_ignored line st :
  is_match (search ignore_pattern line) = true ->
  (_parse_line line st).1 = Ret tt /\
  domains (_parse_line line st).2 = domains st.
Proof.
  intros Hi.
  destruct (parse_line_cases line st)
    as [[_ ->] | [(H & _) | [(H & _) | (d & m & H & _)]]];
    [done|rewrite Hi in H; done..].
Qed.

(** *** [_parse_line], from the results of its four tests *)

Lemma set_stdout_nil st : set_stdout (stdout st ++ []) st = st.
Proof. rewrite app_nil_r. by destruct st. Qed.

Lemma parse_line_ignore line st :
  is_match (search ignore_pattern line) = true ->
  _parse_line line st =
  (Ret tt,
   set_stdout (stdout st ++ if startswith (lit "/") line
                            then [manual_msg line] else []) st).
Proof.
  intros Hi. unfold _parse_line. rewrite Hi. unfold_M.
  destruct (startswith (lit "/") line); [done|]. by rewrite set_stdout_nil.
Qed.

Lemma parse_line_no_domain line st :
  is_match (search ignore_pattern line) = false ->
  is_match (search domain_pattern
              (sub tail_filter_pattern [] (sub head_filter_pattern [] line)))
  = false ->
  _parse_line line st =
  (Ret tt,
   set_stdout (stdout st ++ if startswith (lit "/") line
                            then [manual_msg line] else []) st).
Proof.
  intros Hi Hd. unfold _parse_line. rewrite Hi, Hd. unfold_M. cbn [negb].
  destruct (startswith (lit "/") line); [done|]. by rewrite set_stdout_nil.
Qed.

Lemma parse_line_raises line st :
  is_match (search ignore_pattern line) = false ->
  is_match (search domain_pattern
              (sub tail_filter_pattern [] (sub head_filter_pattern [] line)))
  = true ->
  search wildcard_pattern
    (sub tail_filter_pattern [] (sub head_filter_pattern [] line)) = None ->
  _parse_line line st = (Raise AttributeError, st).
Proof. intros Hi Hd Hw. unfold _parse_line. by rewrite Hi, Hd, Hw. Qed.

Lemma parse_line_adds line m domain st :
  is_match (search ignore_pattern line) = false ->
  is_match (search domain_pattern
              (sub tail_filter_pattern [] (sub head_filter_pattern [] line)))
  = true ->
  search wildcard_pattern
    (sub tail_filter_pattern [] (sub head_filter_pattern [] line)) = Some m ->
  groups 6 m !! 3 = Some (Some domain) ->
  startswith (lit "/") line = false ->
  _parse_line line st = (Ret tt, set_domains ({[domain]} ∪ domains st) st).
Proof.
  intros Hi Hd Hw Hg Hs. unfold _parse_line.
  rewrite Hi, Hd, Hw, Hg, Hs. unfold_M. by destruct st.
Qed.

Ltac compute_tests := vm_compute; reflexivity.


(** *** A text that begins with a slash, with or without line feeds *)

(** [wildcard_pattern] begins with [^]: no match after position 0. *)
Lemma wildcard_later adv i s :
  search_from wildcard_pattern adv (S i) s = None.
Proof.
  revert adv i. induction s as [|c s IH]; intros adv i; [done|].
  change (search_from wildcard_pattern adv (S i) (c :: s))
    with (search_from wildcard_pattern false (S (S i)) s).
  apply IH.
Qed.

(** Nor does it match a text that begins with [/]. *)
Lemma wildcard_slash t : search wildcard_pattern (47%N :: t) = None.
Proof.
  unfold search.
  change (search_from wildcard_pattern false 0 (47%N :: t))
    with (search_from wildcard_pattern false 1 t).
  apply wildcard_later.
Qed.

(** Both alternatives of [tail_filter_pattern] end with [$]. *)
Lemma tail_filter_match_end i u v g g' :
  matches tail_filter_pattern i u v g g' -> v = [] \/ v = [10%N].
Proof.
  unfold tail_filter_pattern. intros [H | H]%alt_inv;
    apply cat_inv in H as (? & ? & ? & -> & _ & H);
    apply cat_inv in H as (? & ? & ? & -> & _ & H);
    by apply eol_inv in H as (_ & _ & ?).
Qed.

Lemma sub_loop_no_match fuel r repl adv i s :
  search_from r adv i s = None -> sub_loop fuel r repl adv i s = s.
Proof. intros H. destruct fuel; [done|]. simpl. by rewrite H. Qed.

Lemma sub_loop_step fuel r repl adv i s m :
  search_from r adv i s = Some m ->
  sub_loop (S fuel) r repl adv i s =
  take (mstart m - i) s ++ repl ++
  sub_loop fuel r repl (mend m =? mstart m) (mend m) (drop (mend m - i) s).
Proof. intros H. simpl. by rewrite H. Qed.

(** What the tail strip leaves of a text that begins with [/]: nothing, a
    line feed, or a text that still begins with [/]. *)
Lemma tail_filter_slash_any rest :
  let t := sub tail_filter_pattern [] (47%N :: rest) in
  t = [] \/ t = [10%N] \/ exists t', t = 47%N :: t'.
Proof.
  unfold sub.
  change (3 + 2 * length (47%N :: rest))
    with (S (S (S (2 * length (47%N :: rest))))).
  destruct (search_from tail_filter_pattern false 0 (47%N :: rest))
    as [m|] eqn:Hs.
  2:{ rewrite sub_loop_no_match by done. right. right. eauto. }
  rewrite (sub_loop_step _ _ _ _ _ _ m Hs).
  apply search_from_sound in Hs as (pre & u & v & Hs & Hm & -> & -> & _).
  rewrite Hs, !Nat.sub_0_r, !Nat.add_0_l. destruct pre as [|c pre].
  - cbn [length Nat.add take app]. rewrite drop_app_length.
    apply tail_filter_match_end in Hm as [-> | ->].
    + left. by apply sub_loop_no_match.
    + right. left. by apply sub_loop_no_match.
  - injection Hs as <- _. right. right. cbn [length take app]. eauto.
Qed.

(** No domain is added for a text that begins with [/]. *)
Lemma parse_line_slash_any rest st :
  domains (_parse_line (47%N :: rest) st).2 = domains st.
Proof.
  destruct (parse_line_cases (47%N :: rest) st)
    as [[_ ->] | [(_ & _ & ->) | [(_ & _ & _ & ->)
       | (d & m & _ & Hd & Hw & _)]]]; try done.
  exfalso. revert Hd Hw. rewrite head_filter_slash.
  destruct (tail_filter_slash_any rest) as [-> | [-> | [t' ->]]];
    try done.
  by rewrite wildcard_slash.
Qed.

(** *** [parse] and [run] *)

Lemma parse_line_ignore_silent line st :
  is_match (search ignore_pattern line) = true ->
  startswith (lit "/") line = false ->
  _parse_line line st = (Ret tt, st).
Proof.
  intros Hi Hs. rewrite parse_line_ignore, Hs by done.
  by rewrite set_stdout_nil.
Qed.

(** A document that fails validation: [False] is returned, a message is
    printed, and nothing else changes. *)
Lemma parse_invalid data st :
  splitlines data = [] \/
  startswith (lit "[AutoProxy") (hd [] (splitlines data)) = false ->
  exists msg,
    parse data st = (Ret (Some false), set_stdout (stdout st ++ [msg]) st).
Proof.
  unfold parse. intros [-> | H]; [by eexists|].
  destruct (length (splitlines data) =? 0); [by eexists|].
  rewrite H. by eexists.
Qed.

(** A document that passes validation: every line is classified, in order,
    the first one included. *)
Lemma parse_valid data lines st :
  splitlines data = lines ->
  lines <> [] ->
  startswith (lit "[AutoProxy") (hd [] lines) = true ->
  parse data st = (for_each lines _parse_line;; mret None) st.
Proof.
  unfold parse. intros <- Hne Hs. rewrite Hs.
  by destruct (splitlines data) as [|l ls].
Qed.

(** [parse] returns [False] exactly on the documents that fail validation. *)
Lemma parse_False_iff data st :
  (parse data st).1 = Ret (Some false) <->
  (splitlines data = [] \/
   startswith (lit "[AutoProxy") (hd [] (splitlines data)) = false).
Proof.
  split.
  - intros H. destruct (splitlines data) as [|l ls] eqn:Hl; [by left|].
    right. destruct (startswith (lit "[AutoProxy") (hd [] (l :: ls))) eqn:Hs;
      [|done].
    rewrite (parse_valid data (l :: ls) st Hl) in H by done.
    revert H. unfold_M.
    by destruct (for_each (l :: ls) _parse_line st) as [[[]|e] st'].
  - intros H. by destruct (parse_invalid data st H) as [msg ->].
Qed.

(** Without a download and without a file name, [run] prints a message and
    returns; no file is written. *)
Lemma run_no_source dec output gfwlist_fname format st :
  truthy gfwlist_fname = false ->
  run dec output false gfwlist_fname format st =
  (Ret tt,
   set_stdout
     (stdout st ++
        [lit "either download or gfwlist_fname must be specified"]) st).
Proof. intros H. unfold run. by rewrite H. Qed.

(** [run] on a local file, raw format: whatever [parse] returns, the extra
    domains are added and the output file is written. *)
Lemma run_local_raw dec output fname content st :
  fname <> [] ->
  files st !! fname = Some content ->
  let parsed := parse (universal_newlines content) st in
  let augmented := (add_extra_domains parsed.2).2 in
  (forall e, parsed.1 <> Raise e) ->
  run dec output false (Some fname) (lit "raw") st =
  (Ret tt,
   set_files
     (<[output := concat ((fun domain => domain ++ newline)
                            <$> elements (domains augmented))]>
        (files augmented))
     augmented).
Proof.
  intros Hne Hfile parsed augmented Hret. subst augmented parsed.
  unfold run. destruct fname as [|c fname]; [done|].
  cbn [truthy default andb]. unfold read_file. unfold_M. cbv [id].
  rewrite Hfile.
  destruct (parse (universal_newlines content) st) as [[b|e] st1];
    [|by destruct (Hret e)].
  reflexivity.
Qed.

(** ** The claims *)

(** C1 (the code raises where the claim promises a discard): on the line
    [||example.com:8080] the ignore test fails, the stripped text still holds
    a domain, but [wildcard_pattern], anchored at both ends, does not match
    it; [search] returns [None] and the call of [groups] on it raises
    [AttributeError]. *)
Theorem parse_line_raises_on_port st :
  let line := lit "||example.com:8080" in
  is_match (search ignore_pattern line) = false /\
  stripped line = lit "example.com:8080" /\
  is_match (search domain_pattern (stripped line)) = true /\
  search wildcard_pattern (stripped line) = None /\
  _parse_line line st = (Raise AttributeError, st).
Proof.
  do 4 (split; [compute_tests|]).
  apply parse_line_raises; compute_tests.
Qed.

(** C3: a line that begins with [/] and holds no line feed (as every line
    of [splitlines], see [splitlines_no_LF]) is discarded with the request to
    add its domain by hand, and nothing is added to the set: whatever the
    ignore test says, the two strips leave the empty text, in which no domain
    is found.  The message of the accepting branch is never printed. *)
Theorem regex_rule_never_extracts line st :
  startswith (lit "/") line = true ->
  no_LF line ->
  _parse_line line st =
    (Ret tt, set_stdout (stdout st ++ [manual_msg line]) st) /\
  domains (_parse_line line st).2 = domains st /\
  stripped line = [] /\
  is_match (search domain_pattern (stripped line)) = false.
Proof.
  intros [rest ->]%startswith_slash Hline.
  apply Forall_cons in Hline as [_ Hrest].
  assert (stripped (47%N :: rest) = []) as Hs.
  { unfold stripped. by rewrite head_filter_slash, tail_filter_slash. }
  rewrite Hs, parse_line_slash by done. done.
Qed.

Lemma regex_rule_never_extracts_witness :
  let line := lit "/x.y/" in
  startswith (lit "/") line = true /\
  line ∈ splitlines (lit "[AutoProxy]" ++ newline ++ line) /\
  _parse_line line fresh =
    (Ret tt, set_stdout (stdout fresh ++ [manual_msg line]) fresh) /\
  domains (_parse_line line fresh).2 = domains fresh /\
  stripped line = [] /\
  is_match (search domain_pattern (stripped line)) = false.
Proof.
  intros line.
  assert (line ∈ splitlines (lit "[AutoProxy]" ++ newline ++ line)) as Hin.
  { apply list_elem_of_In. vm_compute. auto. }
  split; [reflexivity|]. split; [exact Hin|].
  apply (regex_rule_never_extracts line fresh); [reflexivity|].
  exact (splitlines_no_LF _ _ Hin).
Defined.

(** C5: whatever the document, and whether [parse] returns or raises, every
    member of the set after [parse], and after [add_extra_domains], is two
    labels or more of letters, digits and hyphens, none of them beginning
    with a hyphen, with dots between them: no dot at either end and no
    wildcard character.  The set is enumerated without duplicates. *)
Theorem domain_set_canonical dns fs net data :
  let parsed := (parse data (init dns fs net)).2 in
  let augmented := (add_extra_domains parsed).2 in
  (forall d, d ∈ domains parsed \/ d ∈ domains augmented ->
             CanonicalDomain d = true /\
             head d <> Some 46%N /\ last d <> Some 46%N /\ 42%N ∉ d) /\
  NoDup (elements (domains parsed)) /\
  NoDup (elements (domains augmented)).
Proof.
  intros parsed augmented.
  assert (all_canonical parsed) as Hp.
  { apply parse_canonical. intros d Hd. by apply not_elem_of_empty in Hd. }
  assert (all_canonical augmented) as Ha
    by by apply add_extra_domains_canonical.
  split; [|split; apply NoDup_elements].
  intros d Hd.
  assert (CanonicalDomain d = true) as Hc by (destruct Hd; auto).
  auto using canonical_no_leading_dot, canonical_no_trailing_dot,
    canonical_no_wildcard.
Qed.

(** C6: a line that begins with [!] is discarded and nothing is printed; a
    line that begins with [@@], a line with a dotted quad anywhere in it
    (after a URL scheme or not) and a line with [[] anywhere in it are
    discarded. *)
Theorem ignored_lines_return_none line st :
  (startswith (lit "!") line = true -> _parse_line line st = (Ret tt, st)) /\
  (startswith (lit "@@") line = true -> returns_none line st) /\
  ((exists q, dotted_quad q /\ contains q line) -> returns_none line st) /\
  (91%N ∈ line -> returns_none line st).
Proof.
  split; [|split; [|split]].
  - destruct line as [|c rest]; [done|].
    change (startswith (lit "!") (c :: rest)) with (N.eqb 33 c && true).
    intros [<-%N.eqb_eq _]%andb_true_iff.
    by apply parse_line_ignore_silent.
  - destruct line as [|c [|c' rest]]; [done| |].
    + change (startswith (lit "@@") [c]) with (N.eqb 64 c && false).
      by rewrite andb_false_r.
    + change (startswith (lit "@@") (c :: c' :: rest))
        with (N.eqb 64 c && (N.eqb 64 c' && true)).
      intros [<-%N.eqb_eq [<-%N.eqb_eq _]%andb_true_iff]%andb_true_iff.
      by apply parse_line_ignored.
  - intros (q & Hq & pre & post & ->).
    eapply parse_line_ignored, search_complete.
    by apply (ignore_pattern_dotted_quad q _ _ ∅).
  - intros (pre & post & ->)%list_elem_of_split.
    apply (parse_line_ignored (pre ++ [91%N] ++ post)).
    eapply search_complete, (ignore_pattern_bracket _ _ ∅).
Qed.

Lemma ignored_lines_return_none_witness :
  _parse_line (lit "! a comment") fresh = (Ret tt, fresh) /\
  returns_none (lit "@@||example.com") fresh /\
  returns_none (lit "|http://10.0.0.1/path") fresh /\
  returns_none (lit "a[b") fresh.
Proof.
  split; [|split; [|split]].
  - destruct (ignored_lines_return_none (lit "! a comment") fresh)
      as (H & _).
    apply H. reflexivity.
  - destruct (ignored_lines_return_none (lit "@@||example.com") fresh)
      as (_ & H & _).
    apply H. reflexivity.
  - destruct (ignored_lines_return_none (lit "|http://10.0.0.1/path") fresh)
      as (_ & _ & H & _).
    apply H. exists (lit "10.0.0.1"). split.
    + exists (lit "10"), (lit "0"), (lit "0"), (lit "1").
      split; [reflexivity|]. repeat constructor; discriminate.
    + exists (lit "|http://"), (lit "/path"). reflexivity.
  - destruct (ignored_lines_return_none (lit "a[b") fresh) as (_ & _ & _ & H).
    apply H. apply list_elem_of_In. simpl. auto.
Defined.

(** C7: the line [*.example.com] and the line [example.com*] both add
    [example.com], the fourth group of the match of [wildcard_pattern]; the
    wildcard before the first dot and the wildcard at the end are left out. *)
Theorem wildcard_decorations_stripped st :
  _parse_line (lit "*.example.com") st =
    (Ret tt, set_domains ({[lit "example.com"]} ∪ domains st) st) /\
  _parse_line (lit "example.com*") st =
    (Ret tt, set_domains ({[lit "example.com"]} ∪ domains st) st) /\
  (groups 6 <$> search wildcard_pattern (lit "*.example.com")) =
    Some [Some (lit "*."); Some (lit "*"); Some (lit ".");
          Some (lit "example.com"); Some (lit ".com"); None] /\
  (groups 6 <$> search wildcard_pattern (lit "example.com*")) =
    Some [None; None; None;
          Some (lit "example.com"); Some (lit ".com"); Some (lit "*")].
Proof.
  split; [eapply parse_line_adds; compute_tests|].
  split; [eapply parse_line_adds; compute_tests|].
  split; compute_tests.
Qed.

(** C8: the line [||ads.example.com/path] adds [ads.example.com] and the
    line [|http://example.org] adds [example.org]: the head strip removes
    the bars and the scheme, the tail strip removes the text from the first
    [/] or [%2F] on. *)
Theorem anchors_scheme_path_stripped st :
  _parse_line (lit "||ads.example.com/path") st =
    (Ret tt, set_domains ({[lit "ads.example.com"]} ∪ domains st) st) /\
  _parse_line (lit "|http://example.org") st =
    (Ret tt, set_domains ({[lit "example.org"]} ∪ domains st) st) /\
  sub head_filter_pattern [] (lit "||ads.example.com/path")
    = lit "ads.example.com/path" /\
  sub tail_filter_pattern [] (lit "ads.example.com/path")
    = lit "ads.example.com" /\
  sub head_filter_pattern [] (lit "|http://example.org") = lit "example.org" /\
  sub head_filter_pattern [] (lit "||https://example.org")
    = lit "example.org" /\
  sub tail_filter_pattern [] (lit "example.org%2Fa/b") = lit "example.org".
Proof.
  split; [eapply parse_line_adds; compute_tests|].
  split; [eapply parse_line_adds; compute_tests|].
  repeat split; compute_tests.
Qed.

(** C9: the line [/some\.regex\.pattern/] is discarded, and the request to
    add its domain by hand is printed with the line as it was read. *)
Theorem regex_rule_manual_review st :
  let line := lit "/some\.regex\.pattern/" in
  _parse_line line st =
    (Ret tt,
     set_stdout
       (stdout st ++
          [lit "please add domain manually for ignored regex rule: "
           ++ line]) st) /\
  domains (_parse_line line st).2 = domains st.
Proof.
  intros line.
  assert (_parse_line line st =
          (Ret tt, set_stdout (stdout st ++ [manual_msg line]) st)) as H.
  { rewrite parse_line_no_domain by compute_tests. reflexivity. }
  rewrite H. split; reflexivity.
Qed.

(** C10: [parse] on the two lines [[AutoProxy]] and [||foo.bar.com/x], then
    [add_extra_domains]: the set is [foo.bar.com], the google domains, the
    blogspot domains and [twimg.edgesuite.net]. *)
Theorem end_to_end_domain_set dns fs net :
  let data := lit "[AutoProxy]" ++ newline ++ lit "||foo.bar.com/x" in
  let parsed := parse data (init dns fs net) in
  let augmented := add_extra_domains parsed.2 in
  parsed.1 = Ret None /\
  domains parsed.2 = {[lit "foo.bar.com"]} /\
  augmented.1 = Ret tt /\
  domains augmented.2 =
    {[lit "foo.bar.com"]} ∪ list_to_set google_domains
      ∪ list_to_set blogspot_domains ∪ {[lit "twimg.edgesuite.net"]}.
Proof.
  intros data parsed augmented.
  assert (parsed =
          (Ret None, set_domains ({[lit "foo.bar.com"]} ∪ ∅)
                       (init dns fs net))) as Hp.
  { subst parsed.
    rewrite (parse_valid data [lit "[AutoProxy]"; lit "||foo.bar.com/x"])
      by (discriminate || compute_tests).
    cbn [for_each]. unfold_M.
    rewrite parse_line_ignore_silent by compute_tests.
    erewrite parse_line_adds by compute_tests. reflexivity. }
  subst augmented. rewrite add_extra_domains_domains, Hp. clear Hp.
  cbn [fst snd domains set_domains].
  generalize (lit "foo.bar.com") (lit "twimg.edgesuite.net")
    (list_to_set google_domains : gset str)
    (list_to_set blogspot_domains : gset str).
  intros foo twimg G B. rewrite (right_id_L ∅ (∪)).
  split; [reflexivity|]. split; [reflexivity|]. split; [reflexivity|].
  apply (comm_L (∪)).
Qed.

(** C4 (the code raises where the claim promises success): the document of
    the two lines [[AutoProxy]] and [||example.com:8080] passes validation,
    yet [parse] does not return: classifying the second line raises
    [AttributeError].  What the claim says of the failure result does hold,
    see [parse_False_iff] and [parse_invalid]. *)
Theorem parse_raises_on_valid_document st :
  let data := lit "[AutoProxy]" ++ newline ++ lit "||example.com:8080" in
  splitlines data = [lit "[AutoProxy]"; lit "||example.com:8080"] /\
  startswith (lit "[AutoProxy") (hd [] (splitlines data)) = true /\
  parse data st = (Raise AttributeError, st).
Proof.
  intros data. split; [compute_tests|]. split; [compute_tests|].
  rewrite (parse_valid data [lit "[AutoProxy]"; lit "||example.com:8080"])
    by (discriminate || compute_tests).
  cbn [for_each]. unfold_M.
  rewrite parse_line_ignore_silent by compute_tests.
  rewrite parse_line_raises by compute_tests. reflexivity.
Qed.

(** C2 (the code writes where the claim promises no output): with the file
    [list.txt] holding [example.com], a document without the marker, [parse]
    prints its message and returns [False], and [run] goes on: the extra
    domains are added and [out.txt] is written. *)
Theorem run_writes_output_after_failed_validation dec dns net :
  let st := init dns {[lit "list.txt" := lit "example.com"]} net in
  let r := run dec (lit "out.txt") false (Some (lit "list.txt")) (lit "raw")
               st in
  (parse (lit "example.com") st).1 = Ret (Some false) /\
  r.1 = Ret tt /\
  stdout r.2 = [lit "gfwlist is not in AutoProxy format";
                lit "adding google domains";
                lit "add blogspot domains";
                lit "add twimg.edgesuite.net"] /\
  files st !! lit "out.txt" = None /\
  is_Some (files r.2 !! lit "out.txt").
Proof.
  intros st r.
  assert (parse (lit "example.com") st =
          (Ret (Some false),
           set_stdout [lit "gfwlist is not in AutoProxy format"] st)) as Hp
    by compute_tests.
  subst r.
  rewrite (run_local_raw dec _ (lit "list.txt") (lit "example.com") st);
    [|discriminate|apply lookup_singleton_eq|].
  2:{ intros e. change (universal_newlines (lit "example.com"))
        with (lit "example.com"). rewrite Hp. discriminate. }
  change (universal_newlines (lit "example.com")) with (lit "example.com").
  rewrite Hp. cbn [fst snd]. split; [reflexivity|]. split; [reflexivity|].
  split; [reflexivity|]. split; [apply lookup_singleton_ne; discriminate|].
  cbn [files set_files]. rewrite lookup_insert_eq. eauto.
Qed.

(** ** Further properties of the parser *)

Lemma extend_nil st : extend ∅ [] st = st.
Proof.
  unfold extend. rewrite set_stdout_nil.
  unfold set_domains. rewrite (left_id_L ∅ (∪)). by destruct st.
Qed.

Lemma extend_extend D1 out1 D2 out2 st :
  extend D2 out2 (extend D1 out1 st) = extend (D2 ∪ D1) (out1 ++ out2) st.
Proof.
  unfold extend, set_domains, set_stdout. cbn [domains stdout dns_server files urlopen].
  by rewrite (assoc_L (∪)), (assoc_L (++)).
Qed.

Lemma extend_fields D out st :
  domains (extend D out st) = D ∪ domains st /\
  stdout (extend D out st) = stdout st ++ out /\
  files (extend D out st) = files st /\
  dns_server (extend D out st) = dns_server st /\
  urlopen (extend D out st) = urlopen st.
Proof. done. Qed.

(** What [_parse_line] does depends on the line alone: its outcome, the
    domain it adds (one at most, canonical) and the message it prints (one at
    most, and none unless the line begins with [/]). *)
Lemma parse_line_uniform line :
  exists r D out,
    (forall st, _parse_line line st = (r, extend D out st)) /\
    (r = Ret tt \/ (r = Raise AttributeError /\ D = ∅ /\ out = [])) /\
    (D = ∅ \/ exists d, D = {[d]} /\ CanonicalDomain d = true) /\
    length out <= 1 /\
    (startswith (lit "/") line = false -> out = []).
Proof.
  destruct (is_match (search ignore_pattern line)) eqn:Hi.
  { exists (Ret tt), ∅,
      (if startswith (lit "/") line then [manual_msg line] else []).
    split; [intros st; rewrite parse_line_ignore by done|].
    - unfold extend, set_domains. cbn [domains stdout dns_server files urlopen set_stdout].
      by rewrite (left_id_L ∅ (∪)).
    - repeat split; auto; destruct (startswith (lit "/") line); simpl; auto.
      discriminate. }
  destruct (is_match (search domain_pattern (stripped line))) eqn:Hd.
  2:{ exists (Ret tt), ∅,
        (if startswith (lit "/") line then [manual_msg line] else []).
      split; [intros st; rewrite parse_line_no_domain by done|].
      - unfold extend, set_domains. cbn [domains stdout dns_server files urlopen set_stdout].
        by rewrite (left_id_L ∅ (∪)).
      - repeat split; auto; destruct (startswith (lit "/") line); simpl; auto.
        discriminate. }
  destruct (search wildcard_pattern (stripped line)) as [m|] eqn:Hw.
  2:{ exists (Raise AttributeError), ∅, [].
      split; [intros st; rewrite parse_line_raises, extend_nil by done; done|].
      repeat split; auto. }
  destruct (wildcard_group4 _ _ Hw) as (d & Hg & Hc).
  exists (Ret tt), {[d]},
    (if startswith (lit "/") line then [regex_rule_msg (stripped line) d]
     else []).
  split.
  - intros st. unfold _parse_line. fold (stripped line).
    rewrite Hi, Hd, Hw, Hg. cbn [negb]. unfold_M.
    destruct (startswith (lit "/") line); [done|].
    unfold extend. by rewrite set_stdout_nil.
  - repeat split; eauto; destruct (startswith (lit "/") line); simpl; auto.
    discriminate.
Qed.

(** The same for a sequence of lines: it stops at the first line that
    raises. *)
Lemma for_each_uniform lines :
  exists r D out,
    (forall st, for_each lines _parse_line st = (r, extend D out st)) /\
    (r = Ret tt \/ r = Raise AttributeError) /\
    (forall d, d ∈ D -> CanonicalDomain d = true).
Proof.
  induction lines as [|line lines (r & D & out & Hf & Hr & HD)].
  { exists (Ret tt), ∅, []. split; [intros st; by rewrite extend_nil|].
    split; [by left|]. intros d Hd. by apply not_elem_of_empty in Hd. }
  destruct (parse_line_uniform line)
    as (r1 & D1 & out1 & H1 & Hr1 & HD1 & _).
  destruct Hr1 as [-> | (-> & -> & ->)].
  - exists r, (D ∪ D1), (out1 ++ out). split; [|split; [done|]].
    + intros st. cbn [for_each]. unfold_M. rewrite H1, Hf.
      by rewrite extend_extend.
    + intros d [Hd | Hd]%elem_of_union; [by apply HD|].
      destruct HD1 as [-> | (d1 & -> & Hc)];
        [by apply not_elem_of_empty in Hd|].
      by apply elem_of_singleton in Hd as ->.
  - exists (Raise AttributeError), ∅, []. split; [|split; [by right|]].
    + intros st. cbn [for_each]. unfold_M. by rewrite H1.
    + intros d Hd. by apply not_elem_of_empty in Hd.
Qed.

(** The same for [parse]. *)
Lemma parse_uniform data :
  exists r D out,
    (forall st, parse data st = (r, extend D out st)) /\
    (forall d, d ∈ D -> CanonicalDomain d = true).
Proof.
  destruct (splitlines data) as [|l ls] eqn:Hl.
  { exists (Ret (Some false)), ∅, [lit "gfwlist is empty"]. split.
    - intros st. unfold parse. rewrite Hl. unfold extend, set_domains.
      cbn. by rewrite (left_id_L ∅ (∪)).
    - intros d Hd. by apply not_elem_of_empty in Hd. }
  destruct (startswith (lit "[AutoProxy") l) eqn:Hs.
  2:{ exists (Ret (Some false)), ∅, [lit "gfwlist is not in AutoProxy format"].
      split.
      - intros st. unfold parse. rewrite Hl. cbn [length Nat.eqb hd].
        rewrite Hs. unfold extend, set_domains. cbn.
        by rewrite (left_id_L ∅ (∪)).
      - intros d Hd. by apply not_elem_of_empty in Hd. }
  destruct (for_each_uniform (l :: ls)) as (r & D & out & Hf & Hr & HD).
  exists (match r with Ret _ => Ret None | Raise e => Raise e end), D, out.
  split; [|done]. intros st.
  rewrite (parse_valid data (l :: ls)) by done. unfold_M. rewrite Hf.
  by destruct r as [[]|e].
Qed.

(** X1: a line that does not begin with [/] never prints, whether it is
    ignored, holds no domain, adds one or makes the call raise. *)
Theorem parse_line_silent_unless_regex line st :
  startswith (lit "/") line = false ->
  stdout (_parse_line line st).2 = stdout st.
Proof.
  intros Hs.
  destruct (parse_line_uniform line) as (r & D & out & H & _ & _ & _ & Hout).
  rewrite H, (Hout Hs). cbn. apply app_nil_r.
Qed.

Lemma parse_line_silent_unless_regex_witness :
  startswith (lit "/") (lit "||example.com:8080") = false /\
  stdout (_parse_line (lit "||example.com:8080") fresh).2 = stdout fresh.
Proof.
  split; [reflexivity|].
  apply (parse_line_silent_unless_regex (lit "||example.com:8080") fresh).
  reflexivity.
Defined.

(** X2: whether [parse] returns or raises, it removes no domain, it leaves
    the files, the resolver and the answers of the network as they were, and
    what it prints comes after what was printed before. *)
Theorem parse_only_adds data st :
  domains st ⊆ domains (parse data st).2 /\
  files (parse data st).2 = files st /\
  dns_server (parse data st).2 = dns_server st /\
  urlopen (parse data st).2 = urlopen st /\
  exists out, stdout (parse data st).2 = stdout st ++ out.
Proof.
  destruct (parse_uniform data) as (r & D & out & H & _). rewrite H.
  cbn [snd]. destruct (extend_fields D out st) as (-> & -> & -> & -> & ->).
  repeat split; eauto. apply union_subseteq_r.
Qed.

(** X3: parsing a document a second time adds nothing: the set after two
    runs of [parse] in a row is the set after one (the second run is not
    reached when the first one raises). *)
Theorem parse_twice_same_domains data st :
  domains ((parse data;; parse data) st).2 = domains (parse data st).2.
Proof.
  destruct (parse_uniform data) as (r & D & out & H & _). unfold_M.
  rewrite H. destruct r as [b|e]; [|done]. rewrite H. cbn.
  by rewrite (assoc_L (∪)), (idemp_L (∪)).
Qed.

(** X4: [parse] returns [False] exactly when the document has no line or
    its first line does not begin with the marker; it then prints one
    message and changes nothing else: no line is classified. *)
Theorem parse_fails_exactly_on_invalid data st :
  let invalid :=
    splitlines data = [] \/
    startswith (lit "[AutoProxy") (hd [] (splitlines data)) = false in
  ((parse data st).1 = Ret (Some false) <-> invalid) /\
  (invalid ->
   exists msg,
     (parse data st).2 = set_stdout (stdout st ++ [msg]) st /\
     (msg = lit "gfwlist is empty" \/
      msg = lit "gfwlist is not in AutoProxy format")).
Proof.
  intros invalid. split; [apply parse_False_iff|].
  unfold parse. intros [Hl | Hs].
  - rewrite Hl. eexists. split; [reflexivity|]. by left.
  - destruct (length (splitlines data) =? 0).
    + eexists. split; [reflexivity|]. by left.
    + rewrite Hs. eexists. split; [reflexivity|]. by right.
Qed.

(** X5: in a document that passes validation the marker line itself is
    discarded without a message (it holds a bracket): [parse] amounts to
    classifying the lines after the first. *)
Theorem parse_skips_marker_line data first rest st :
  splitlines data = first :: rest ->
  startswith (lit "[AutoProxy") first = true ->
  _parse_line first st = (Ret tt, st) /\
  parse data st = (for_each rest _parse_line;; mret None) st.
Proof.
  intros Hl Hs.
  assert (_parse_line first st = (Ret tt, st)) as H1.
  { destruct first as [|c first']; [done|].
    change (startswith (lit "[AutoProxy") (c :: first'))
      with (N.eqb 91 c && startswith (lit "AutoProxy") first') in Hs.
    apply andb_true_iff in Hs as [<-%N.eqb_eq _].
    by apply parse_line_ignore_silent. }
  split; [done|].
  rewrite (parse_valid data (first :: rest)) by done.
  cbn [for_each]. unfold_M. by rewrite H1.
Qed.

Lemma parse_skips_marker_line_witness :
  let data := lit "[AutoProxy 0.2.9]" ++ newline ++ lit "||example.com" in
  splitlines data = [lit "[AutoProxy 0.2.9]"; lit "||example.com"] /\
  _parse_line (lit "[AutoProxy 0.2.9]") fresh = (Ret tt, fresh) /\
  parse data fresh = (for_each [lit "||example.com"] _parse_line;; mret None)
                       fresh.
Proof.
  intros data.
  assert (splitlines data = [lit "[AutoProxy 0.2.9]"; lit "||example.com"])
    as Hl by (vm_compute; reflexivity).
  split; [exact Hl|].
  apply (parse_skips_marker_line data _ _ fresh Hl). reflexivity.
Defined.

(** *** Where an extracted domain comes from *)

(** The head strip removes a prefix of the line and nothing else. *)
Lemma head_filter_suffix s :
  exists a, sub head_filter_pattern [] s = drop a s.
Proof.
  assert (forall adv v m,
            search_from head_filter_pattern adv 0 v = Some m ->
            mstart m = 0 /\ (adv = true -> mend m <> 0)) as Hzero.
  { intros adv v m (pre & u & w & -> & Hm & -> & -> & Hadv)%search_from_sound.
    unfold head_filter_pattern in Hm.
    apply cat_inv in Hm as (? & ? & ? & _ & (Hp & _ & _)%bol_inv & _).
    destruct pre; [|done]. split; [done|]. intros ->.
    specialize (Hadv eq_refl eq_refl). by destruct u. }
  unfold sub. generalize (2 * length s). intros f.
  change (3 + f) with (S (S (S f))).
  destruct (search_from head_filter_pattern false 0 s) as [m|] eqn:Hs.
  2:{ exists 0. by rewrite sub_loop_no_match. }
  rewrite (sub_loop_step _ _ _ _ _ _ m Hs).
  destruct (Hzero _ _ _ Hs) as [-> _]. rewrite !Nat.sub_0_r. cbn [take app].
  destruct (mend m) as [|e] eqn:He.
  2:{ exists (S e). by rewrite sub_loop_no_match by apply head_filter_later. }
  cbn [Nat.eqb drop].
  destruct (search_from head_filter_pattern true 0 s) as [m'|] eqn:Hs'.
  2:{ exists 0. by rewrite sub_loop_no_match. }
  rewrite (sub_loop_step _ _ _ _ _ _ m' Hs').
  destruct (Hzero _ _ _ Hs') as [-> He']. rewrite !Nat.sub_0_r. cbn [take app].
  destruct (mend m') as [|e'] eqn:He''; [by destruct He'|].
  exists (S e'). by rewrite sub_loop_no_match by apply head_filter_later.
Qed.

(** On a text without a line feed the tail strip keeps a prefix and removes
    all that follows it. *)
Lemma tail_filter_prefix s :
  no_LF s -> exists b, sub tail_filter_pattern [] s = take b s.
Proof.
  intros Hs. unfold sub. generalize (2 * length s). intros f.
  change (3 + f) with (S (S (S f))).
  destruct (search_from tail_filter_pattern false 0 s) as [m|] eqn:Hm.
  2:{ exists (length s). by rewrite sub_loop_no_match, firstn_all. }
  rewrite (sub_loop_step _ _ _ _ _ _ m Hm).
  apply search_from_sound in Hm as (pre & u & v & -> & Hm & -> & -> & _).
  apply tail_filter_match_end in Hm as [-> | ->].
  - exists (length pre). rewrite !Nat.sub_0_r, !Nat.add_0_l, app_nil_r.
    rewrite take_app_length, <- length_app, drop_all.
    rewrite sub_loop_no_match by done. by rewrite app_nil_r.
  - exfalso. unfold no_LF in Hs. rewrite !Forall_app in Hs.
    destruct Hs as (_ & _ & Hv). by apply Forall_cons in Hv as [? _].
Qed.

Lemma contains_drop d a s : contains d (drop a s) -> contains d s.
Proof.
  intros (pre & post & H). exists (take a s ++ pre), post.
  by rewrite <- (take_drop a s) at 1; rewrite H, <- app_assoc.
Qed.

Lemma contains_take d b s : contains d (take b s) -> contains d s.
Proof.
  intros (pre & post & H). exists pre, (post ++ drop b s).
  by rewrite <- (take_drop b s) at 1; rewrite H, <- !app_assoc.
Qed.

(** The fourth group of a match of [wildcard_pattern] is a piece of the
    text that was searched. *)
Lemma wildcard_group4_contains line m d :
  search wildcard_pattern line = Some m ->
  groups 6 m !! 3 = Some (Some d) ->
  contains d line.
Proof.
  unfold search. intros H Hg.
  apply search_from_sound in H as (pre & u & v & -> & Hm & _).
  change (groups 6 m !! 3) with (Some (mcaps m !! 4)) in Hg.
  remember (mcaps m) as gm eqn:Hgm. clear Hgm.
  unfold wildcard_pattern in Hm.
  apply cat_inv in Hm as (u0 & u' & g0 & -> & _ & Hm).
  apply cat_inv in Hm as (u1 & u'' & g1 & -> & _ & Hm).
  apply cat_inv in Hm as (d' & u2 & g2 & -> & Hd & Hm).
  apply grp_inv in Hd as (g3 & Hd & ->).
  rewrite (matches_frame _ _ _ _ _ _ Hm 4) in Hg
    by (rewrite list_elem_of_In; simpl; intuition lia).
  rewrite lookup_insert_eq in Hg. injection Hg as ->.
  exists (pre ++ u0 ++ u1), (u2 ++ v). by rewrite <- !app_assoc.
Qed.

(** A domain that [_parse_line] adds for a line without a line feed stands
    in that line. *)
Lemma parse_line_provenance line st d :
  no_LF line ->
  d ∈ domains (_parse_line line st).2 ->
  d ∈ domains st \/ contains d line.
Proof.
  intros Hline.
  destruct (parse_line_cases line st)
    as [[_ ->] | [(_ & _ & ->) | [(_ & _ & _ & ->)
       | (d' & m & _ & _ & Hw & Hg & _ & ->)]]]; auto.
  cbn. intros [->%elem_of_singleton | Hin]%elem_of_union; [|by left].
  right. apply (wildcard_group4_contains _ _ _ Hw) in Hg.
  destruct (head_filter_suffix line) as [a Ha]. rewrite Ha in Hg.
  destruct (tail_filter_prefix (drop a line)) as [b Hb].
  { unfold no_LF in *. rewrite <- (take_drop a line) in Hline.
    by apply Forall_app in Hline as [_ ?]. }
  rewrite Hb in Hg. by eapply contains_drop, contains_take.
Qed.

Lemma for_each_provenance lines st d :
  Forall no_LF lines ->
  d ∈ domains (for_each lines _parse_line st).2 ->
  d ∈ domains st \/ exists line, line ∈ lines /\ contains d line.
Proof.
  revert st. induction lines as [|l lines IH]; intros st Hl Hd; [by left|].
  apply Forall_cons in Hl as [Hl Hls]. cbn [for_each] in Hd. revert Hd.
  unfold_M. pose proof (parse_line_provenance l st d Hl) as H1.
  destruct (_parse_line l st) as [[[]|e] st1]; cbn [snd] in *.
  - intros [Hd | (line & Hin & Hc)]%IH; [|right; exists line|]; auto.
    + destruct (H1 Hd); [by left|]. right. exists l. split; [left|done].
    + split; [by right|done].
  - intros Hd. destruct (H1 Hd); [by left|].
    right. exists l. split; [left|done].
Qed.

(** X6: every domain in the set after [parse], whether it returns or
    raises, was in the set before or stands, character for character, in a
    line of the document. *)
Theorem parse_provenance data st d :
  d ∈ domains (parse data st).2 ->
  d ∈ domains st \/ exists line, line ∈ splitlines data /\ contains d line.
Proof.
  unfold parse. destruct (length (splitlines data) =? 0); [by left|].
  destruct (negb _); [by left|]. unfold_M.
  pose proof (for_each_provenance (splitlines data) st d) as H.
  destruct (for_each (splitlines data) _parse_line st) as [[[]|e] st1];
    cbn [snd] in *; intros Hd; apply H; auto;
    apply Forall_forall; intros l Hl; by eapply splitlines_no_LF.
Qed.

Lemma parse_provenance_witness :
  let data := lit "[AutoProxy]" ++ newline ++ lit "||foo.bar.com/x" in
  lit "foo.bar.com" ∈ domains (parse data fresh).2 /\
  (lit "foo.bar.com" ∈ domains fresh \/
   exists line, line ∈ splitlines data /\ contains (lit "foo.bar.com") line).
Proof.
  intros data.
  assert (lit "foo.bar.com" ∈ domains (parse data fresh).2) as Hin.
  { subst data.
    rewrite (parse_valid _ [lit "[AutoProxy]"; lit "||foo.bar.com/x"])
      by (discriminate || compute_tests).
    cbn [for_each]. unfold_M.
    rewrite parse_line_ignore_silent by compute_tests.
    erewrite parse_line_adds by compute_tests.
    apply elem_of_union_l, elem_of_singleton. reflexivity. }
  split; [exact Hin|]. exact (parse_provenance data fresh _ Hin).
Defined.

(** *** The strips against their hand-written counterparts *)

(** A literal matches its own text. *)
Lemma lits_inv p i u v g g' :
  matches (Lits_ p) i u v g g' -> u = p /\ g' = g.
Proof.
  revert i u g. induction p as [|a [|b p] IH]; intros i u g H.
  - by inversion H.
  - by apply chr_inv in H.
  - cbn [Lits_] in H. apply cat_inv in H as (u1 & u2 & g1 & -> & H1 & H2).
    apply chr_inv in H1 as [-> ->]. by apply IH in H2 as [-> ->].
Qed.

Lemma startswith_app p s :
  startswith p s = true <-> exists t, s = p ++ t.
Proof.
  revert s. induction p as [|a p IH]; intros s; simpl.
  - split; eauto.
  - destruct s as [|b s].
    + split; [done|]. by intros [t Ht].
    + rewrite andb_true_iff, N.eqb_eq, IH. split.
      * intros [-> [t ->]]. eauto.
      * intros [t [= -> ->]]. eauto.
Qed.

(** The tail strip from any position on: the matches of
    [tail_filter_pattern] do not depend on where the text begins. *)
Lemma tail_filter_sub_loop s :
  no_LF s ->
  forall fuel i,
    sub_loop (S fuel) tail_filter_pattern [] false i s = before_path s.
Proof.
  induction 1 as [|c s Hc Hs IH]; intros fuel i; [done|].
  assert (forall K : cont match_obj,
            rmatch (Star (Cls any) ++ Eol)%re (S i) s ∅ K
            = K (S i + length s) [] ∅) as Hstar.
  { intros K. apply (star_any_eol K s Hs (S (length s))). lia. }
  assert (forall j, drop (S (j + length s) - j) (c :: s) = []) as Hdrop.
  { intros j. replace (S (j + length s) - j) with (S (length s)) by lia.
    apply drop_all. }
  cbn [before_path].
  destruct (N.eqb c 47) eqn:E47; cbn [orb].
  { apply N.eqb_eq in E47 as ->.
    assert (search_from tail_filter_pattern false i (47%N :: s)
            = Some (MatchObj i (S i + length s) ∅)) as Hm.
    { cbn [search_from].
      change (match_at tail_filter_pattern false i (47%N :: s))
        with (orelse
                (rmatch (Star (Cls any) ++ Eol)%re (S i) s ∅
                   (fun i'' _ g'' =>
                      if false && (i'' =? i) then None
                      else Some (MatchObj i i'' g'')))
                None).
      by rewrite Hstar. }
    rewrite (sub_loop_step _ _ _ _ _ _ _ Hm). cbn [mstart mend].
    rewrite Nat.sub_diag. cbn [take app Nat.add]. rewrite Hdrop.
    by apply sub_loop_no_match. }
  destruct (startswith (lit "%2F") (c :: s)) eqn:Epct.
  { apply startswith_app in Epct as [t Ht].
    change (lit "%2F" ++ t) with (37%N :: 50%N :: 70%N :: t) in Ht.
    injection Ht as -> ->. clear IH Hstar Hdrop E47 Hc. rename t into s.
    apply Forall_cons in Hs as [_ Hs]. apply Forall_cons in Hs as [_ Hs].
    assert (search_from tail_filter_pattern false i (37%N :: 50%N :: 70%N :: s)
            = Some (MatchObj i (S (S (S i)) + length s) ∅)) as Hm.
    { cbn [search_from].
      change (match_at tail_filter_pattern false i
                (37%N :: 50%N :: 70%N :: s))
        with (rep_loop (rmatch (Cls any))
                (fun i' s' g' =>
                   rmatch Eol i' s' g'
                     (fun i'' _ g'' =>
                        if false && (i'' =? i) then None
                        else Some (MatchObj i i'' g'')))
                (S (length s)) 0 None (S (S (S i))) s ∅).
      rewrite star_any_eol by (done || lia). done. }
    rewrite (sub_loop_step _ _ _ _ _ _ _ Hm). cbn [mstart mend].
    rewrite Nat.sub_diag. cbn [take app].
    replace (S (S (S i)) + length s - i)
      with (length (37%N :: 50%N :: 70%N :: s)) by (simpl; lia).
    rewrite drop_all. by apply sub_loop_no_match. }
  assert (match_at tail_filter_pattern false i (c :: s) = None) as Hnone.
  { destruct (match_at tail_filter_pattern false i (c :: s)) as [m|] eqn:Hm;
      [exfalso|done].
    apply match_at_sound in Hm as (u & v & Huv & Hm & _).
    unfold tail_filter_pattern in Hm.
    apply alt_inv in Hm as [Hm | Hm];
      apply cat_inv in Hm as (u1 & u2 & g1 & -> & H1 & _);
      apply lits_inv in H1 as [-> _].
    - injection Huv as -> _. done.
    - assert (startswith (lit "%2F") (c :: s) = true) as Ht; [|congruence].
      apply startswith_app. exists (u2 ++ v). by rewrite Huv, <- app_assoc. }
  specialize (IH fuel (S i)). revert IH.
  cbn [sub_loop search_from]. rewrite Hnone.
  destruct (search_from tail_filter_pattern false (S i) s) as [m|] eqn:Hm.
  2:{ by intros <-. }
  apply search_from_sound in Hm as (pre & u & v & _ & _ & Hms & Hme & _).
  rewrite Hms, Hme.
  replace (S i + length pre - i) with (S (length pre)) by lia.
  replace (S i + length pre + length u - i)
    with (S (length pre + length u)) by lia.
  replace (S i + length pre - S i) with (length pre) by lia.
  replace (S i + length pre + length u - S i)
    with (length pre + length u) by lia.
  cbn [take drop app]. by intros <-.
Qed.

(** X7: on a text without a line feed the tail strip is the text before the
    first [/] or [%2F]. *)
Theorem tail_filter_before_path s :
  no_LF s -> sub tail_filter_pattern [] s = before_path s.
Proof. intros Hs. by apply tail_filter_sub_loop. Qed.

Lemma tail_filter_before_path_witness :
  no_LF (lit "a.b%2Fc/d") /\
  sub tail_filter_pattern [] (lit "a.b%2Fc/d") = before_path (lit "a.b%2Fc/d").
Proof.
  assert (no_LF (lit "a.b%2Fc/d")) as H
    by (repeat constructor; discriminate).
  split; [exact H|]. exact (tail_filter_before_path _ H).
Defined.

(** Evaluation of the matcher on a text of which a prefix is known: the
    tests of [rep_loop] on the lengths are decided by [lia], the characters
    are tried one after the other. *)
Ltac guard_true :=
  repeat match goal with
    | |- context [Nat.ltb ?a ?b] =>
        replace (Nat.ltb a b) with true
          by (symmetry; apply Nat.ltb_lt; cbn [length]; lia)
    end.

Ltac run_re :=
  repeat (progress (cbn [rmatch rep_loop orelse can_repeat fmap option_fmap
                         option_map Nat.pred pred Nat.eqb andb
                         negb length startswith drop take Nat.add]);
          guard_true).

Ltac lit_values :=
  repeat match goal with
    | |- context [lit ?x] =>
        let v := eval vm_compute in (lit x) in change (lit x) with v
    | |- context [Lits ?x] =>
        let v := eval vm_compute in (Lits x) in change (Lits x) with v
    end.

Ltac case_step :=
  match goal with
  | |- context [N.eqb ?a ?b] =>
      let v := eval vm_compute in (N.eqb a b) in
      match v with
      | true => change (N.eqb a b) with true
      | false => change (N.eqb a b) with false
      end
  | |- context [N.eqb ?n ?c] => is_var c; rewrite (N.eqb_sym n c)
  | |- context [match ?s with [] => _ | _ :: _ => _ end] =>
      is_var s; destruct s as [|? ?]
  | |- context [N.eqb ?c ?n] =>
      is_var c;
      let E := fresh "E" in
      destruct (N.eqb c n) eqn:E; [apply N.eqb_eq in E; subst c|]
  end.

Ltac sub_const :=
  repeat match goal with
    | |- context [?x - ?y] =>
        first [ replace (x - y) with 1 by lia
              | replace (x - y) with 2 by lia
              | replace (x - y) with 7 by lia
              | replace (x - y) with 8 by lia ]
    end.

Lemma orelse_None_r {A} (x : option A) : orelse x None = x.
Proof. by destruct x. Qed.

(** The optional bars, with the order in which the matcher tries them. *)
Lemma bars_opt {A} (k : cont A) i s g :
  rmatch (Opt (Grp 1 (Lits "|" ++ Opt (Lits "|"))))%re i s g k =
  if startswith (lit "||") s
  then orelse (orelse (k (2 + i) (drop 2 s) (<[1 := lit "||"]> g))
                      (k (1 + i) (drop 1 s) (<[1 := lit "|"]> g)))
              (k i s g)
  else if startswith (lit "|") s
       then orelse (k (1 + i) (drop 1 s) (<[1 := lit "|"]> g)) (k i s g)
       else k i s g.
Proof.
  lit_values. unfold Opt. repeat (run_re; try case_step);
    sub_const; run_re; rewrite ?orelse_None_r; reflexivity.
Qed.

(** The optional scheme. *)
Lemma scheme_opt {A} (k : cont A) i s g :
  rmatch (Opt (Grp 2 (Lits "http" ++ Opt (Lits "s") ++ Lits "://")))%re
         i s g k =
  if startswith (lit "http://") s
  then orelse (k (7 + i) (drop 7 s) (<[2 := lit "http://"]> g)) (k i s g)
  else if startswith (lit "https://") s
       then orelse (k (8 + i) (drop 8 s) (<[2 := lit "https://"]> g))
                   (k i s g)
       else k i s g.
Proof.
  lit_values. unfold Opt. repeat (run_re; try case_step);
    sub_const; run_re; rewrite ?orelse_None_r; reflexivity.
Qed.

(** The first attempt of [head_filter_pattern], at position 0. *)
Lemma head_match_at adv s :
  match_at head_filter_pattern adv 0 s =
  rmatch (Opt (Grp 1 (Lits "|" ++ Opt (Lits "|"))))%re 0 s ∅
    (fun i' s' g' =>
       rmatch (Opt (Grp 2 (Lits "http" ++ Opt (Lits "s") ++ Lits "://")))%re
         i' s' g'
         (fun i'' _ g'' =>
            if adv && (i'' =? 0) then None else Some (MatchObj 0 i'' g''))).
Proof. reflexivity. Qed.

(** The match that the head strip removes: the bars and the scheme, as
    many as there are; without them the match is empty and the next search,
    which has to advance, finds none. *)
Lemma head_match_removed s :
  exists m,
    match_at head_filter_pattern false 0 s = Some m /\
    mstart m = 0 /\
    drop (mend m) s = remove_scheme (remove_bars s) /\
    (mend m = 0 -> match_at head_filter_pattern true 0 s = None).
Proof.
  rewrite !head_match_at, !bars_opt. cbv beta. unfold remove_bars.
  destruct (startswith (lit "||") s) eqn:E2;
    [|destruct (startswith (lit "|") s) eqn:E1];
    rewrite !scheme_opt; unfold remove_scheme.
  - destruct (startswith (lit "http://") (drop 2 s)) eqn:Eh;
      [|destruct (startswith (lit "https://") (drop 2 s)) eqn:Es];
      cbn [andb orelse Nat.eqb Nat.add]; eexists;
      (split; [reflexivity|]); cbn [mstart mend];
      (split; [reflexivity|]); rewrite ?drop_drop; split; done.
  - destruct (startswith (lit "http://") (drop 1 s)) eqn:Eh;
      [|destruct (startswith (lit "https://") (drop 1 s)) eqn:Es];
      cbn [andb orelse Nat.eqb Nat.add]; eexists;
      (split; [reflexivity|]); cbn [mstart mend];
      (split; [reflexivity|]); rewrite ?drop_drop; split; done.
  - destruct (startswith (lit "http://") s) eqn:Eh;
      [|destruct (startswith (lit "https://") s) eqn:Es];
      cbn [andb orelse Nat.eqb Nat.add]; eexists;
      (split; [reflexivity|]); cbn [mstart mend];
      (split; [reflexivity|]); rewrite ?drop_drop; split; done.
Qed.

Lemma head_filter_sub s :
  sub head_filter_pattern [] s = remove_scheme (remove_bars s).
Proof.
  destruct (head_match_removed s) as (m & Hm & Hs & <- & Hadv).
  unfold sub. generalize (2 * length s). intros f.
  change (3 + f) with (S (S (S f))).
  assert (search_from head_filter_pattern false 0 s = Some m) as H1
    by (destruct s; cbn [search_from]; by rewrite Hm).
  rewrite (sub_loop_step _ _ _ _ _ _ m H1), Hs, !Nat.sub_0_r.
  cbn [take app]. destruct (mend m) as [|e] eqn:He.
  - rewrite drop_0. change (0 =? 0) with true. apply sub_loop_no_match.
    specialize (Hadv eq_refl).
    destruct s; cbn [search_from]; rewrite Hadv; [done|].
    apply head_filter_later.
  - apply sub_loop_no_match, head_filter_later.
Qed.

(** X8: the head strip removes the leading [||] or [|] and then the scheme
    [http://] or [https://], where they stand, and nothing else. *)
Theorem head_filter_removes_bars_and_scheme s :
  sub head_filter_pattern [] s = remove_scheme (remove_bars s).
Proof. apply head_filter_sub. Qed.

(** *** A line that strips to a canonical domain *)

(** A text is its labels with dots between them. *)
Lemma labels_joined s :
  exists l ls, labels s = l :: ls /\ s = l ++ concat (cons 46%N <$> ls).
Proof.
  induction s as [|c s (l & ls & Hl & Hs)]; [by exists [], []|].
  simpl. rewrite Hl. destruct (N.eqb c 46) eqn:E.
  - apply N.eqb_eq in E as ->. exists [], (l :: ls). by rewrite Hs at 1.
  - exists (c :: l), ls. by rewrite Hs at 1.
Qed.

Lemma dot_labels_matches n ls :
  forallb label_ok ls = true ->
  forall lo i v g,
    lo <= length ls ->
    exists g',
      matches (Rep lo None
                 (Grp n (Lits "." ++ Cls alnum ++ Star (Cls hyphen_alnum))%re))
              i (concat (cons 46%N <$> ls)) v g g'.
Proof.
  induction ls as [|l ls IH]; intros Hls lo i v g Hlo.
  - simpl in Hlo. replace lo with 0 by lia. eexists. apply M_Rep_done.
  - simpl in Hls. apply andb_true_iff in Hls as [Hl Hls].
    destruct l as [|c w]; [done|]. simpl in Hl.
    apply andb_true_iff in Hl as [Hc Hw].
    destruct (IH Hls (pred lo) (i + length (46%N :: c :: w)) v
                (<[n := 46%N :: c :: w]> g)) as [g' Hm].
    { simpl in Hlo. lia. }
    exists g'. cbn [fmap list_fmap concat].
    eapply (M_Rep_more lo None _ i (46%N :: c :: w)); [done|done| |exact Hm].
    apply M_Grp.
    apply (M_Cat _ _ i [46%N] (c :: w) _ g g g); [apply M_Chr|].
    apply (M_Cat _ _ _ [c] w _ g g g); [by apply M_Cls|].
    by apply star_cls_matches.
Qed.

(** The domain shape matches every canonical domain. *)
Lemma canonical_matches_shape n d i v g :
  CanonicalDomain d = true ->
  exists g', matches (domain_shape n) i d v g g'.
Proof.
  unfold CanonicalDomain. intros [Hlen Hok]%andb_true_iff.
  destruct (labels_joined d) as (l & ls & Hl & ->). rewrite Hl in Hlen, Hok.
  simpl in Hlen, Hok. apply andb_true_iff in Hok as [Hl1 Hls].
  destruct l as [|c w]; [done|]. simpl in Hl1.
  apply andb_true_iff in Hl1 as [Hc Hw].
  destruct (dot_labels_matches n ls Hls 1 (i + length [c] + length w) v g)
    as [g' Hm].
  { destruct ls; [done|simpl; lia]. }
  exists g'. unfold domain_shape.
  apply (M_Cat _ _ i [c] (w ++ _) _ g g g'); [by apply M_Cls|].
  apply (M_Cat _ _ _ w _ _ g g g'); [by apply star_cls_matches|].
  exact Hm.
Qed.

(** An optional pattern matches nothing or what the pattern matches. *)
Lemma opt_inv r i u v g g' :
  matches (Opt r) i u v g g' ->
  (u = [] /\ g' = g) \/ (u <> [] /\ matches r i u v g g').
Proof.
  intros [(_ & -> & ->) | (_ & u1 & u2 & g1 & Hne & -> & H1 & H2)]%rep_inv;
    [by left|right].
  apply rep_inv in H2 as [(_ & -> & ->) | (Hc & _)]; [|done].
  rewrite app_nil_r in *. done.
Qed.

(** The optional wildcard before the domain: nothing, or a text that ends
    with a dot and has nothing but a wildcard text before it. *)
Lemma wildcard_prefix_inv i u v g g' :
  matches (Opt (Grp 1 (Opt (Grp 2 (Star (Cls alnum) ++ Lits "*"
                                   ++ Star (Cls hyphen_alnum)))
                       ++ Grp 3 (Lits "."))))%re i u v g g' ->
  u = [] \/ u = [46%N] \/ 42%N ∈ u.
Proof.
  intros [[-> _] | [_ H1]]%opt_inv; [by left|right].
  apply grp_inv in H1 as (g2 & H1 & _).
  apply cat_inv in H1 as (x & y & g3 & -> & Hx & Hy).
  apply grp_inv in Hy as (g4 & Hy & _).
  change (Lits ".") with (Chr 46) in Hy. apply chr_inv in Hy as [-> _].
  apply opt_inv in Hx as [[-> _] | [_ Hx]]; [by left|right].
  apply grp_inv in Hx as (g6 & Hx & _).
  apply cat_inv in Hx as (a & b & g7 & -> & _ & Hx).
  apply cat_inv in Hx as (c & e & g8 & -> & Hc & _).
  change (Lits "*") with (Chr 42) in Hc. apply chr_inv in Hc as [-> _].
  rewrite !elem_of_app. left. right. left. by left.
Qed.

(** The optional wildcard after the domain: nothing, or a text with a
    wildcard. *)
Lemma wildcard_suffix_inv i u v g g' :
  matches (Opt (Grp 6 (Lits "*" ++ Star (Cls alnum))))%re i u v g g' ->
  u = [] \/ 42%N ∈ u.
Proof.
  intros [[-> _] | [_ H1]]%opt_inv; [by left|right].
  apply grp_inv in H1 as (g2 & H1 & _).
  apply cat_inv in H1 as (x & y & g3 & -> & Hx & _).
  change (Lits "*") with (Chr 42) in Hx. apply chr_inv in Hx as [-> _].
  rewrite !elem_of_app. left. by left.
Qed.

(** On a canonical domain [wildcard_pattern] matches, and its fourth group
    is the whole of it. *)
Lemma wildcard_on_canonical d :
  CanonicalDomain d = true ->
  exists m, search wildcard_pattern d = Some m /\
            groups 6 m !! 3 = Some (Some d).
Proof.
  intros Hd.
  assert (is_match (search wildcard_pattern d) = true) as Hex.
  { destruct (canonical_matches_shape 5 d 0 [] ∅ Hd) as [g' Hm].
    rewrite <- (app_nil_r d) at 1.
    apply (search_complete wildcard_pattern [] d [] ∅ (<[4 := d]> g')).
    unfold wildcard_pattern.
    apply (M_Cat _ _ 0 [] d [] ∅ ∅); [apply M_Bol|].
    apply (M_Cat _ _ 0 [] d [] ∅ ∅); [apply M_Rep_done|].
    rewrite <- (app_nil_r d) at 1.
    apply (M_Cat _ _ _ d [] [] ∅ (<[4 := d]> g')); [by apply M_Grp|].
    apply (M_Cat _ _ _ [] [] [] _ (<[4 := d]> g'));
      [apply M_Rep_done|apply M_Eol; by left]. }
  destruct (search wildcard_pattern d) as [m|] eqn:Hs; [|done].
  exists m. split; [done|].
  destruct (wildcard_group4 _ _ Hs) as (d4 & Hg & _). rewrite Hg.
  pose proof (wildcard_group4_contains _ _ _ Hs Hg) as _.
  unfold search in Hs.
  apply search_from_sound in Hs as (pre & u & v & Hsplit & Hm & _).
  change (groups 6 m !! 3) with (Some (mcaps m !! 4)) in Hg.
  remember (mcaps m) as gm eqn:Hgm. clear Hgm.
  unfold wildcard_pattern in Hm.
  apply cat_inv in Hm as (u0 & u' & g0 & -> & Hb & Hm).
  apply bol_inv in Hb as (Hpre & -> & ->).
  apply cat_inv in Hm as (u1 & u'' & g1 & -> & H1 & Hm).
  apply cat_inv in Hm as (d' & u2 & g2 & -> & H4 & Hm).
  apply grp_inv in H4 as (g3 & H4 & ->).
  rewrite (matches_frame _ _ _ _ _ _ Hm 4) in Hg
    by (rewrite list_elem_of_In; simpl; intuition lia).
  rewrite lookup_insert_eq in Hg. injection Hg as ->.
  apply cat_inv in Hm as (u6 & u7 & g4 & -> & H6 & He).
  apply eol_inv in He as (-> & _ & Hv).
  destruct pre; [|done]. cbn [app] in Hsplit.
  pose proof (canonical_no_wildcard _ Hd) as Hstar.
  pose proof (canonical_no_leading_dot _ Hd) as Hdot.
  pose proof (canonical_chars _ Hd) as Hchars.
  rewrite Hsplit in Hstar, Hdot, Hchars.
  apply wildcard_prefix_inv in H1 as [-> | [-> | H1]].
  2:{ by destruct Hdot. }
  2:{ destruct Hstar. rewrite !elem_of_app. by left; left. }
  apply wildcard_suffix_inv in H6 as [-> | H6].
  2:{ destruct Hstar. rewrite !elem_of_app. left. right. right. by left. }
  destruct Hv as [-> | ->].
  - rewrite Hsplit. cbn [app]. by rewrite !app_nil_r.
  - rewrite !Forall_app in Hchars. destruct Hchars as (_ & Hv).
    apply Forall_cons in Hv as [[Hv | Hv] _]; done.
Qed.

(** X9: a line without a line feed that the ignore test lets through and
    that is a canonical domain once the bars, the scheme and the path are
    removed adds exactly that domain, and prints nothing. *)
Theorem parse_line_adds_stripped_domain line d st :
  no_LF line ->
  is_match (search ignore_pattern line) = false ->
  before_path (remove_scheme (remove_bars line)) = d ->
  CanonicalDomain d = true ->
  _parse_line line st = (Ret tt, set_domains ({[d]} ∪ domains st) st).
Proof.
  intros Hline Hi Hstrip Hd.
  assert (no_LF (remove_scheme (remove_bars line))) as Hmid.
  { unfold remove_scheme, remove_bars, no_LF in *.
    repeat match goal with |- context [if ?b then _ else _] => destruct b end;
      repeat apply Forall_drop; done. }
  assert (sub tail_filter_pattern [] (sub head_filter_pattern [] line) = d)
    as Hs.
  { rewrite head_filter_sub, <- Hstrip.
    exact (tail_filter_sub_loop _ Hmid _ 0). }
  destruct (wildcard_on_canonical d Hd) as (m & Hw & Hg).
  apply (parse_line_adds line m d st); rewrite ?Hs; try done.
  - destruct (canonical_matches_shape 2 d 0 [] ∅ Hd) as [g' Hm].
    rewrite <- (app_nil_r d).
    apply (search_complete domain_pattern [] d [] ∅ (<[1 := d]> g')).
    by apply M_Grp.
  - destruct line as [|c rest]; [done|].
    change (startswith (lit "/") (c :: rest)) with (N.eqb 47 c && true).
    rewrite N.eqb_sym. destruct (N.eqb c 47) eqn:E; [|done].
    apply N.eqb_eq in E as ->. by rewrite <- Hstrip in Hd.
Qed.

Lemma parse_line_adds_stripped_domain_witness :
  let line := lit "|https://www.example.com/a?b=c" in
  no_LF line /\
  is_match (search ignore_pattern line) = false /\
  before_path (remove_scheme (remove_bars line)) = lit "www.example.com" /\
  CanonicalDomain (lit "www.example.com") = true /\
  _parse_line line fresh =
    (Ret tt, set_domains ({[lit "www.example.com"]} ∪ domains fresh) fresh).
Proof.
  intros line.
  assert (no_LF line) as H by (repeat constructor; discriminate).
  split; [exact H|]. split; [reflexivity|]. split; [reflexivity|].
  split; [reflexivity|].
  apply (parse_line_adds_stripped_domain line _ fresh H);
    vm_compute; reflexivity.
Defined.

(** *** The ignore test, exactly *)

Lemma plus_cls_inv p i u v g g' :
  matches (Plus (Cls p)) i u v g g' -> u <> [] /\ forallb p u = true.
Proof.
  intros [(? & _) | (_ & u1 & u2 & g1 & Hne & -> & H1 & H2)]%rep_inv;
    [done|].
  apply cls_inv in H1 as (c & -> & Hc & ->).
  apply (star_cls_inv p) in H2 as [H2 _]. split; [done|].
  simpl. by rewrite Hc.
Qed.

(** X10: the ignore test succeeds exactly on the lines that begin with [!]
    or with [@@], that hold a bracket, or that hold a dotted quad. *)
Theorem ignore_test_iff line :
  is_match (search ignore_pattern line) = true <->
  (startswith (lit "!") line = true \/
   startswith (lit "@@") line = true \/
   91%N ∈ line \/
   exists q, dotted_quad q /\ contains q line).
Proof.
  split.
  - destruct (search ignore_pattern line) as [m|] eqn:Hs; [intros _|done].
    unfold search in Hs.
    apply search_from_sound in Hs as (pre & u & v & -> & Hm & _).
    unfold ignore_pattern in Hm.
    apply alt_inv in Hm as [Hm | Hm]; [apply alt_inv in Hm as [Hm | Hm];
      [apply alt_inv in Hm as [Hm | Hm]|]|].
    + apply cat_inv in Hm as (u1 & u2 & g1 & -> & Hb & Hc).
      apply bol_inv in Hb as (Hp & -> & _). destruct pre; [|done].
      change (Lits "!") with (Chr 33) in Hc. apply chr_inv in Hc as [-> _].
      by left.
    + change (Lits "[") with (Chr 91) in Hm. apply chr_inv in Hm as [-> _].
      right. right. left. rewrite !elem_of_app. right. left. by left.
    + apply cat_inv in Hm as (u1 & u2 & g1 & -> & Hb & Hc).
      apply bol_inv in Hb as (Hp & -> & _). destruct pre; [|done].
      apply lits_inv in Hc as [-> _]. right. by left.
    + apply cat_inv in Hm as (u0 & u' & g0 & -> & _ & Hm).
      apply cat_inv in Hm as (d1 & u1 & g1 & -> & [? ?]%plus_cls_inv & Hm).
      apply cat_inv in Hm as (p1 & u2 & g2 & -> & [-> _]%lits_inv & Hm).
      apply cat_inv in Hm as (d2 & u3 & g3 & -> & [? ?]%plus_cls_inv & Hm).
      apply cat_inv in Hm as (p2 & u4 & g4 & -> & [-> _]%lits_inv & Hm).
      apply cat_inv in Hm as (d3 & u5 & g5 & -> & [? ?]%plus_cls_inv & Hm).
      apply cat_inv in Hm as (p3 & d4 & g6 & -> & [-> _]%lits_inv & Hm).
      apply plus_cls_inv in Hm as [? ?].
      right. right. right.
      exists (d1 ++ lit "." ++ d2 ++ lit "." ++ d3 ++ lit "." ++ d4). split.
      * exists d1, d2, d3, d4. split; [done|]. by repeat constructor.
      * exists (pre ++ u0), v. by rewrite <- !app_assoc.
  - intros [H | [H | [H | (q & Hq & pre & post & ->)]]].
    + apply startswith_app in H as [t ->].
      apply (search_complete ignore_pattern [] (lit "!") t ∅ ∅).
      unfold ignore_pattern. do 3 apply M_Alt_l.
      apply (M_Cat _ _ 0 [] [33%N] t ∅ ∅ ∅); [apply M_Bol|apply M_Chr].
    + apply startswith_app in H as [t ->].
      apply (search_complete ignore_pattern [] (lit "@@") t ∅ ∅).
      unfold ignore_pattern. apply M_Alt_l, M_Alt_r.
      apply (M_Cat _ _ 0 [] [64%N; 64%N] t ∅ ∅ ∅); [apply M_Bol|].
      apply (M_Cat _ _ 0 [64%N] [64%N] t ∅ ∅ ∅); apply M_Chr.
    + apply list_elem_of_split in H as (pre & post & ->).
      apply (search_complete ignore_pattern pre [91%N] post ∅ ∅).
      apply ignore_pattern_bracket.
    + eapply search_complete. by apply (ignore_pattern_dotted_quad q _ _ ∅).
Qed.

(** ** Fetching, running, writing *)

Lemma fetch_url_spec url st :
  _fetch_url url st =
  (Ret (urlopen st url), set_stdout (stdout st ++ fetch_messages st url) st).
Proof.
  unfold _fetch_url, fetch_messages. unfold_M.
  cbn [urlopen set_stdout stdout]. destruct (urlopen st url); [done|].
  unfold set_stdout. cbn. by rewrite <- app_assoc.
Qed.

Lemma set_stdout_app st out1 out2 :
  set_stdout (stdout (set_stdout (stdout st ++ out1) st) ++ out2)
             (set_stdout (stdout st ++ out1) st)
  = set_stdout (stdout st ++ out1 ++ out2) st.
Proof. unfold set_stdout. cbn. by rewrite app_assoc. Qed.

(** The mirrors are tried in their order; the first answer that is not
    empty is returned and the mirrors after it are not tried. *)
Lemma fetch_from_first pre url post data st :
  Forall (fun u => truthy (urlopen st u) = false) pre ->
  urlopen st url = Some data ->
  data <> [] ->
  fetch_from (pre ++ url :: post) st =
  (Ret (Some data),
   set_stdout (stdout st ++ concat (fetch_messages st <$> pre ++ [url])) st).
Proof.
  intros Hpre Hurl Hdata. revert st Hpre Hurl.
  induction pre as [|u pre IH]; intros st Hpre Hurl.
  - cbn [app fetch_from]. unfold_M. rewrite fetch_url_spec, Hurl.
    destruct data; [done|]. cbn [truthy fmap list_fmap concat].
    by rewrite app_nil_r.
  - apply Forall_cons in Hpre as [Hu Hpre].
    cbn [app fetch_from]. unfold_M. rewrite fetch_url_spec, Hu.
    rewrite IH by done. cbn [fmap list_fmap concat].
    by rewrite set_stdout_app.
Qed.

(** When no mirror answers, [fetch] returns [None]. *)
Lemma fetch_from_none urls st :
  Forall (fun u => truthy (urlopen st u) = false) urls ->
  fetch_from urls st =
  (Ret None,
   set_stdout (stdout st ++ concat (fetch_messages st <$> urls)
                 ++ [lit "fail to download gfwlist"]) st).
Proof.
  revert st. induction urls as [|u urls IH]; intros st Hu.
  - reflexivity.
  - apply Forall_cons in Hu as [Hu Hus].
    cbn [fetch_from]. unfold_M. rewrite fetch_url_spec, Hu.
    rewrite IH by done. cbn [fmap list_fmap concat].
    by rewrite set_stdout_app, <- app_assoc.
Qed.

(** X11: [fetch] goes through the mirrors in the order of [URLs] and
    returns the first answer that is not empty; what it prints shows that no
    mirror after that one is tried. *)
Theorem fetch_first_answer_wins pre url post data st :
  URLs = pre ++ url :: post ->
  Forall (fun u => truthy (urlopen st u) = false) pre ->
  urlopen st url = Some data ->
  data <> [] ->
  fetch st =
  (Ret (Some data),
   set_stdout (stdout st ++ concat (fetch_messages st <$> pre ++ [url])) st).
Proof.
  intros HU Hpre Hurl Hdata. unfold fetch. rewrite HU.
  by apply fetch_from_first.
Qed.

Lemma fetch_first_answer_wins_witness :
  let second := lit "http://repo.or.cz/gfwlist.git/blob_plain/HEAD:/gfwlist.txt" in
  let st := init DEFAULT_SECURE_DNS_SERVER ∅
              (fun u => if bool_decide (u = second) then Some (lit "QUJD")
                        else None) in
  fetch st =
  (Ret (Some (lit "QUJD")),
   set_stdout
     [lit "downloding gfwlist from https://pagure.io/gfwlist/raw/master/f/gfwlist.txt";
      lit "download https://pagure.io/gfwlist/raw/master/f/gfwlist.txt failed";
      lit "downloding gfwlist from http://repo.or.cz/gfwlist.git/blob_plain/HEAD:/gfwlist.txt"]
     st).
Proof.
  intros second st.
  apply (fetch_first_answer_wins
           [lit "https://pagure.io/gfwlist/raw/master/f/gfwlist.txt"]
           second (drop 2 URLs) (lit "QUJD") st).
  - reflexivity.
  - repeat constructor.
  - reflexivity.
  - discriminate.
Defined.

Lemma first_answer urls st :
  Forall (fun u => truthy (urlopen st u) = false) urls \/
  exists pre url post data,
    urls = pre ++ url :: post /\
    Forall (fun u => truthy (urlopen st u) = false) pre /\
    urlopen st url = Some data /\ data <> [].
Proof.
  induction urls as [|u urls [IH | (pre & url & post & data & -> & ? & ? & ?)]].
  - by left.
  - destruct (truthy (urlopen st u)) eqn:Hu; [right|left; by constructor].
    destruct (urlopen st u) as [[|c data]|] eqn:Hd; try done.
    exists [], u, urls, (c :: data). by repeat split.
  - destruct (truthy (urlopen st u)) eqn:Hu; right.
    + destruct (urlopen st u) as [[|c data']|] eqn:Hd; try done.
      exists [], u, (pre ++ url :: post), (c :: data'). by repeat split.
    + exists (u :: pre), url, post, data. repeat split; try done.
      by constructor.
Qed.

(** X12: [fetch] never raises and changes nothing but what is printed; it
    returns [None] when every mirror raised or answered nothing, and
    otherwise an answer that is not empty, given by one of [URLs]. *)
Theorem fetch_returns_an_answer_or_none st :
  exists r out,
    fetch st = (Ret r, set_stdout (stdout st ++ out) st) /\
    match r with
    | None => Forall (fun u => truthy (urlopen st u) = false) URLs
    | Some data =>
        data <> [] /\ exists url, url ∈ URLs /\ urlopen st url = Some data
    end.
Proof.
  unfold fetch.
  destruct (first_answer URLs st)
    as [Hnone | (pre & url & post & data & HU & Hpre & Hurl & Hdata)].
  - exists None. eexists. split; [by apply fetch_from_none|done].
  - exists (Some data). eexists. rewrite HU at 1.
    split; [by apply fetch_from_first|]. split; [done|].
    exists url. split; [|done]. rewrite HU, elem_of_app. right. by left.
Qed.

(** X13: in download mode, when no mirror answers, [run] raises
    [TypeError] (base64 is asked to decode [None]): no file is written and
    no domain is added. *)
Theorem run_download_without_answer dec output gfwlist_fname format st :
  Forall (fun u => truthy (urlopen st u) = false) URLs ->
  run dec output true gfwlist_fname format st =
  (Raise TypeError,
   set_stdout (stdout st ++ concat (fetch_messages st <$> URLs)
                 ++ [lit "fail to download gfwlist"]) st).
Proof.
  intros H. unfold run. unfold_M. unfold fetch.
  by rewrite (fetch_from_none URLs st H).
Qed.

Lemma run_download_without_answer_witness :
  run (fun _ => None) (lit "out.txt") true None (lit "raw") fresh =
  (Raise TypeError,
   set_stdout (stdout fresh ++ concat (fetch_messages fresh <$> URLs)
                 ++ [lit "fail to download gfwlist"]) fresh).
Proof.
  apply (run_download_without_answer (fun _ => None) (lit "out.txt") None
           (lit "raw") fresh).
  repeat constructor.
Defined.

(** X14: when the local file does not exist, [run] raises
    [FileNotFoundError] and changes nothing. *)
Theorem run_missing_file dec output fname format st :
  fname <> [] ->
  files st !! fname = None ->
  run dec output false (Some fname) format st = (Raise FileNotFoundError, st).
Proof.
  intros Hne Hf. unfold run. destruct fname as [|c fname]; [done|].
  cbn [truthy default]. unfold read_file. unfold_M. cbv [id].
  by rewrite Hf.
Qed.

Lemma run_missing_file_witness :
  lit "list.txt" <> [] /\
  files fresh !! lit "list.txt" = None /\
  run (fun _ => None) (lit "out.txt") false (Some (lit "list.txt")) (lit "raw")
      fresh = (Raise FileNotFoundError, fresh).
Proof.
  split; [discriminate|]. split; [reflexivity|].
  apply (run_missing_file (fun _ => None) (lit "out.txt") (lit "list.txt")
           (lit "raw") fresh); [discriminate|reflexivity].
Defined.

Lemma add_extra_domains_spec st :
  add_extra_domains st =
  (Ret tt,
   extend ({[lit "twimg.edgesuite.net"]}
             ∪ (list_to_set google_domains ∪ list_to_set blogspot_domains))
          [lit "adding google domains"; lit "add blogspot domains";
           lit "add twimg.edgesuite.net"] st).
Proof.
  unfold add_extra_domains, extend. unfold_M.
  unfold set_domains, set_stdout. cbn [domains stdout dns_server files urlopen].
  f_equal. f_equal.
  - rewrite <- (assoc_L (∪) (domains st)).
    rewrite (comm_L (∪) (domains st)). by rewrite (assoc_L (∪)).
  - by rewrite <- !app_assoc.
Qed.

(** X15: without a download, a format that is neither [raw] nor
    [adguardhome] leaves every file as it was, whatever else happens: the
    document is parsed and the result is not written anywhere. *)
Theorem run_unknown_format_writes_nothing dec output gfwlist_fname format st :
  format <> lit "raw" ->
  format <> lit "adguardhome" ->
  files (run dec output false gfwlist_fname format st).2 = files st.
Proof.
  intros Hraw Hadg. unfold run.
  destruct (truthy gfwlist_fname); [|done].
  unfold read_file. unfold_M.
  destruct (files st !! default [] gfwlist_fname) as [content|]; [|done].
  destruct (parse_uniform (universal_newlines content))
    as (r & D & out & Hp & _).
  cbn [andb]. rewrite Hp. destruct r as [b|e]; [|done].
  rewrite add_extra_domains_spec.
  rewrite (bool_decide_eq_false_2 _ Hraw), (bool_decide_eq_false_2 _ Hadg).
  done.
Qed.

Lemma run_unknown_format_writes_nothing_witness :
  let st := init DEFAULT_SECURE_DNS_SERVER
              {[lit "list.txt" := lit "[AutoProxy]"]} (fun _ => None) in
  lit "dnsmasq" <> lit "raw" /\
  lit "dnsmasq" <> lit "adguardhome" /\
  files (run (fun _ => None) (lit "out.txt") false (Some (lit "list.txt"))
             (lit "dnsmasq") st).2 = files st.
Proof.
  intros st. split; [discriminate|]. split; [discriminate|].
  apply (run_unknown_format_writes_nothing (fun _ => None) (lit "out.txt")
           (Some (lit "list.txt")) (lit "dnsmasq") st); discriminate.
Defined.



(** *** Reading the output back *)











(** *** Line ends of the local file *)

Lemma splitlines_aux_universal_newlines n :
  forall s cur,
    length s <= n ->
    splitlines_aux cur (universal_newlines s) = splitlines_aux cur s.
Proof.
  induction n as [|n IH]; intros [|c s] cur Hn; simpl in Hn; try lia;
    try done.
  cbn [universal_newlines splitlines_aux].
  destruct (N.eqb c 13) eqn:E13.
  - destruct s as [|c' s].
    + reflexivity.
    + destruct (N.eqb c' 10) eqn:E10; cbn [splitlines_aux];
        change (N.eqb 10 13) with false; change (is_linebreak 10) with true;
        cbn iota; f_equal; apply IH; simpl in *; lia.
  - cbn [splitlines_aux]. rewrite E13.
    destruct (is_linebreak c); [f_equal|]; apply IH; lia.
Qed.

(** X19: reading the local file in text mode does not change what is
    parsed: a file with CR LF or CR line ends gives the result of its
    content as it is. *)
Theorem parse_after_text_mode_read fname content st :
  files st !! fname = Some content ->
  (data ← read_file fname; parse data) st = parse content st.
Proof.
  intros Hf. unfold read_file. unfold_M. rewrite Hf.
  unfold parse, splitlines.
  by rewrite (splitlines_aux_universal_newlines (length content)).
Qed.

Lemma parse_after_text_mode_read_witness :
  let crlf := lit "[AutoProxy]" ++ [13%N; 10%N] ++ lit "||example.com"
              ++ [13%N; 10%N] in
  let st := init DEFAULT_SECURE_DNS_SERVER {[lit "list.txt" := crlf]}
              (fun _ => None) in
  (data ← read_file (lit "list.txt"); parse data) st = parse crlf st.
Proof.
  intros crlf st.
  apply (parse_after_text_mode_read (lit "list.txt") crlf st).
  apply lookup_singleton_eq.
Defined.


